(** * Index tuple layout and counter accessors (src/include/access/itup.h)

    A shallow embedding of the macros and inline functions of [itup.h]:
    the [t_info] masks, the two offset macros [IndexInfoFindDataOffset] and
    [IndexInfoFindTupleCountOffset], the attribute access macro
    [index_getattr], and the three counter accessors
    [index_tuple_get_count], [index_tuple_set_count] and
    [index_tuple_add_count].

    An index tuple is the byte buffer that starts at the [IndexTuple]
    pointer.  Every access at a byte offset from [tup] is an access to
    that buffer; an access outside of it is undefined behaviour and is
    reported as such. *)

From Stdlib Require Import ZArith List Lia Bool.
From coqutil Require Import Byte Word.LittleEndianList.
Import ListNotations.
Local Open Scope Z_scope.

(** ** Outcomes of a C expression or function call *)

Inductive outcome (A : Type) : Type :=
| Returns (a : A)          (* normal completion *)
| AssertionFailure         (* a failed Assert / AssertMacro traps *)
| UndefinedBehaviour.      (* access outside of the object *)

Arguments Returns {A} a.
Arguments AssertionFailure {A}.
Arguments UndefinedBehaviour {A}.

Definition bind {A B : Type} (m : outcome A) (k : A -> outcome B) : outcome B :=
  match m with
  | Returns a => k a
  | AssertionFailure => AssertionFailure
  | UndefinedBehaviour => UndefinedBehaviour
  end.

Notation "x <- m ;; k" := (bind m (fun x => k))
  (at level 61, m at next level, right associativity).
Notation "m ;;; k" := (bind m (fun _ => k))
  (at level 61, right associativity).

(** A C scalar used as a condition: non-zero is true. *)
Definition is_true_C (z : Z) : bool := negb (z =? 0).

(** Modelled from the spec: [Assert] and [AssertMacro] come from c.h, which
    is not part of the sources.  The spec calls the failure
    "assertion-grade" and "fail fast": a condition that evaluates to zero
    stops the call at once.  (This is the macro of an assert-enabled
    build.) *)
Definition Assert (condition : Z) : outcome unit :=
  if is_true_C condition then Returns tt else AssertionFailure.

(** Modelled from the spec: [AssertMacro] (c.h) is [Assert] in expression
    position; its condition is a C truth value. *)
Definition AssertMacro (condition : bool) : outcome unit :=
  if condition then Returns tt else AssertionFailure.

(** ** The platform

    What [itup.h] takes from headers that are not part of the sources:
    the byte order, the width of [uintptr_t] / [Size], [MAXIMUM_ALIGNOF]
    (pg_config.h), [INDEX_MAX_KEYS] (pg_config_manual.h), and the size of
    [IndexTupleData] with the offset of its field [t_info], which depend
    on [ItemPointerData] (storage/itemptr.h). *)

Inductive ByteOrder : Type := LittleEndian | BigEndian.

Class Platform : Type := {
  byte_order : ByteOrder;
  uintptr_bits : Z;
  MAXIMUM_ALIGNOF : Z;
  INDEX_MAX_KEYS : Z;
  sizeof_IndexTupleData : Z;
  offsetof_t_info : Z
}.

(** The usual 64-bit build: 6-byte [ItemPointerData], then [t_info]. *)
Definition pg_x86_64 : Platform := {|
  byte_order := LittleEndian;
  uintptr_bits := 64;
  MAXIMUM_ALIGNOF := 8;
  INDEX_MAX_KEYS := 32;
  sizeof_IndexTupleData := 8;
  offsetof_t_info := 6
|}.

(** A 32-bit big-endian build whose [MAXIMUM_ALIGNOF] is 4. *)
Definition pg_be32 : Platform := {|
  byte_order := BigEndian;
  uintptr_bits := 32;
  MAXIMUM_ALIGNOF := 4;
  INDEX_MAX_KEYS := 32;
  sizeof_IndexTupleData := 8;
  offsetof_t_info := 6
|}.

(** ** [t_info] manipulation macros *)

Definition INDEX_SIZE_MASK : Z := 0x1FFF.
Definition INDEX_HAS_TUPLE_COUNT : Z := 0x2000.
Definition INDEX_VAR_MASK : Z := 0x4000.
Definition INDEX_NULL_MASK : Z := 0x8000.

(** Overwrite the elements of [l] from position [o] on with [bs]. *)
Definition splice {A : Type} (l : list A) (o : nat) (bs : list A) : list A :=
  firstn o l ++ bs ++ skipn (o + length bs) l.

Section Layout.
Context {P : Platform}.

(** [bits8 bits[(INDEX_MAX_KEYS + 8 - 1) / 8]]: C integer division. *)
Definition sizeof_IndexAttributeBitMapData : Z :=
  Z.quot (INDEX_MAX_KEYS + 8 - 1) 8.

(** [uint64 tuple_count]. *)
Definition sizeof_IndexTupleCountData : Z := 8.

(** Modelled from the spec: the alignment macros come from c.h, which is
    not part of the sources.  The spec rounds a length up to the alignment
    unit; this is the usual add-and-mask form on an unsigned integer of
    [w] bits, [(LEN + (ALIGNVAL - 1)) & ~(ALIGNVAL - 1)]. *)
Definition TYPEALIGN_bits (w ALIGNVAL LEN : Z) : Z :=
  Z.land ((LEN mod 2 ^ w + (ALIGNVAL - 1)) mod 2 ^ w)
         (Z.lnot (ALIGNVAL - 1) mod 2 ^ w).

(** Modelled from the spec: [MAXALIGN] rounds up to "the platform's
    strict-alignment unit", computed on a [uintptr_t]. *)
Definition MAXALIGN (LEN : Z) : Z :=
  TYPEALIGN_bits uintptr_bits MAXIMUM_ALIGNOF LEN.

(** Modelled from the spec: [MAXALIGN64] is the spec's [align8] ("8 bytes
    for the bitmap boundary"), computed on a [uint64]. *)
Definition MAXALIGN64 (LEN : Z) : Z :=
  TYPEALIGN_bits 64 8 LEN.

(** The [(Size)] cast. *)
Definition Size (z : Z) : Z := z mod 2 ^ uintptr_bits.

Definition IndexInfoFindDataOffset (t_info : Z) : Z :=
  Size (MAXALIGN
    (MAXALIGN64
       (sizeof_IndexTupleData +
        (if is_true_C (Z.land t_info INDEX_NULL_MASK)
         then sizeof_IndexAttributeBitMapData else 0)) +
     (if is_true_C (Z.land t_info INDEX_HAS_TUPLE_COUNT)
      then sizeof_IndexTupleCountData else 0))).

Definition IndexInfoFindTupleCountOffset (t_info : Z) : Z :=
  if negb (is_true_C (Z.land t_info INDEX_NULL_MASK))
  then MAXALIGN64 sizeof_IndexTupleData
  else MAXALIGN64 (sizeof_IndexTupleData + sizeof_IndexAttributeBitMapData).


(** ** The tuple buffer *)

(** [IndexTuple]: the bytes from the start of the [IndexTupleData] header
    on ("MORE DATA FOLLOWS AT END OF STRUCT"). *)
Definition IndexTuple : Type := list byte.

(** A scalar of [n] bytes in the platform's byte order. *)
Definition decode_scalar (bs : list byte) : Z :=
  match byte_order with
  | LittleEndian => le_combine bs
  | BigEndian => le_combine (rev bs)
  end.

Definition encode_scalar (n : nat) (v : Z) : list byte :=
  match byte_order with
  | LittleEndian => le_split n v
  | BigEndian => rev (le_split n v)
  end.

Definition in_bounds (tup : IndexTuple) (off : Z) (n : nat) : bool :=
  (0 <=? off) && (off + Z.of_nat n <=? Z.of_nat (length tup)).

Definition load_bytes (tup : IndexTuple) (off : Z) (n : nat) : outcome (list byte) :=
  if in_bounds tup off n
  then Returns (firstn n (skipn (Z.to_nat off) tup))
  else UndefinedBehaviour.

Definition store_bytes (tup : IndexTuple) (off : Z) (bs : list byte) : outcome IndexTuple :=
  if in_bounds tup off (length bs)
  then Returns (splice tup (Z.to_nat off) bs)
  else UndefinedBehaviour.

(** [*(uint64 * ) (tup + off)] as an rvalue and as an lvalue. *)
Definition load_uint64 (tup : IndexTuple) (off : Z) : outcome Z :=
  bs <- load_bytes tup off 8 ;; Returns (decode_scalar bs).

Definition store_uint64 (tup : IndexTuple) (off : Z) (v : Z) : outcome IndexTuple :=
  store_bytes tup off (encode_scalar 8 (v mod 2 ^ 64)).

(** [tup->t_info], an [unsigned short]. *)
Definition t_info (tup : IndexTuple) : outcome Z :=
  bs <- load_bytes tup offsetof_t_info 2 ;; Returns (decode_scalar bs).

Definition IndexTupleSize (itup : IndexTuple) : outcome Z :=
  info <- t_info itup ;; Returns (Size (Z.land info INDEX_SIZE_MASK)).

Definition IndexTupleHasTupleCount (itup : IndexTuple) : outcome Z :=
  info <- t_info itup ;; Returns (Z.land info INDEX_HAS_TUPLE_COUNT).

Definition IndexTupleHasNulls (itup : IndexTuple) : outcome Z :=
  info <- t_info itup ;; Returns (Z.land info INDEX_NULL_MASK).

Definition IndexTupleHasVarwidths (itup : IndexTuple) : outcome Z :=
  info <- t_info itup ;; Returns (Z.land info INDEX_VAR_MASK).

(** ** Counter accessors

    The two writers return the buffer after the store. *)

Definition index_tuple_get_count (tup : IndexTuple) : outcome Z :=
  c <- IndexTupleHasTupleCount tup ;;
  Assert c ;;;
  info <- t_info tup ;;
  load_uint64 tup (IndexInfoFindTupleCountOffset info).

Definition index_tuple_set_count (tup : IndexTuple) (tuple_count : Z)
  : outcome IndexTuple :=
  c <- IndexTupleHasTupleCount tup ;;
  Assert c ;;;
  info <- t_info tup ;;
  store_uint64 tup (IndexInfoFindTupleCountOffset info) tuple_count.

Definition index_tuple_add_count (tup : IndexTuple) (delta_tuple_count : Z)
  : outcome IndexTuple :=
  c <- IndexTupleHasTupleCount tup ;;
  Assert c ;;;
  info <- t_info tup ;;
  old <- load_uint64 tup (IndexInfoFindTupleCountOffset info) ;;
  store_uint64 tup (IndexInfoFindTupleCountOffset info)
               (old + delta_tuple_count).

(** ** Attribute access *)

(** The part of [FormData_pg_attribute] (catalog/pg_attribute.h) that the
    access path looks at. *)
Record Form_pg_attribute : Type := {
  attlen : Z;
  attbyval : bool;
  attalign : Z;
  attcacheoff : Z
}.

(** [struct tupleDesc] (access/tupdesc.h). *)
Record TupleDesc : Type := {
  natts : Z;
  attrs : list Form_pg_attribute
}.

(** [fetchatt] (access/tupmacs.h) and [nocache_index_getattr]
    (indextuple.c) are not part of the sources.  The [Datum] that
    [index_getattr] yields is kept as the expression that produces it:
    the direct fetch at a byte offset of the tuple, the call of the full
    walk, or the constant [(Datum) NULL].  [eval_Datum] below evaluates
    the expression, with the fetch and the walk as the specification
    describes them. *)
Inductive Datum : Type :=
| fetchatt (A : Form_pg_attribute) (T : Z)
| nocache_index_getattr (tup : IndexTuple) (attnum : Z) (tupleDesc : TupleDesc)
| Datum_NULL.

(** [(tupleDesc)->attrs[i]]. *)
Definition attrs_at (tupleDesc : TupleDesc) (i : Z) : outcome Form_pg_attribute :=
  if i <? 0 then UndefinedBehaviour
  else match nth_error (attrs tupleDesc) (Z.to_nat i) with
       | Some a => Returns a
       | None => UndefinedBehaviour
       end.

(** Modelled from the spec: [att_isnull] comes from access/tupmacs.h, which
    is not part of the sources.  The spec: "bit index i set <=> attribute
    i+1 is null"; the bit is number [ATT & 0x07] of byte [ATT >> 3] of the
    bitmap that starts [BITS] bytes into the tuple. *)
Definition att_isnull (ATT : Z) (tup : IndexTuple) (BITS : Z) : outcome bool :=
  bs <- load_bytes tup (BITS + Z.shiftr ATT 3) 1 ;;
  Returns (is_true_C (Z.land (decode_scalar bs) (Z.shiftl 1 (Z.land ATT 0x07)))).

(** [PointerIsValid] (c.h): the pointer is not [NULL]. *)
Definition PointerIsValid (pointer : Z) : bool := negb (pointer =? 0).

(** The macro yields the [Datum] and leaves a flag in [*isnull]; both are
    returned.  [isnull] is the address passed for the flag. *)
Definition index_getattr (tup : IndexTuple) (attnum : Z) (tupleDesc : TupleDesc)
    (isnull : Z) : outcome (Datum * bool) :=
  AssertMacro (PointerIsValid isnull && (0 <? attnum)) ;;;
  let isnull_value := false in
  n <- IndexTupleHasNulls tup ;;
  if negb (is_true_C n) then
    a <- attrs_at tupleDesc (attnum - 1) ;;
    if 0 <=? attcacheoff a then
      a' <- attrs_at tupleDesc (attnum - 1) ;;
      info <- t_info tup ;;
      a'' <- attrs_at tupleDesc (attnum - 1) ;;
      Returns (fetchatt a' (IndexInfoFindDataOffset info + attcacheoff a''),
               isnull_value)
    else
      Returns (nocache_index_getattr tup attnum tupleDesc, isnull_value)
  else
    b <- att_isnull (attnum - 1) tup sizeof_IndexTupleData ;;
    if b then
      Returns (Datum_NULL, true)
    else
      Returns (nocache_index_getattr tup attnum tupleDesc, isnull_value).

(** ** The regions of a tuple

    Header (heap reference and [t_info]), null bitmap and attribute data,
    as byte ranges of the buffer. *)

Definition header_region (tup : IndexTuple) : list byte :=
  firstn (Z.to_nat sizeof_IndexTupleData) tup.

Definition bitmap_region (tup : IndexTuple) : list byte :=
  firstn (Z.to_nat sizeof_IndexAttributeBitMapData)
         (skipn (Z.to_nat sizeof_IndexTupleData) tup).

Definition data_region (info : Z) (tup : IndexTuple) : list byte :=
  skipn (Z.to_nat (IndexInfoFindDataOffset info)) tup.

(** Everything in front of the attribute data. *)
Definition before_data (info : Z) (tup : IndexTuple) : list byte :=
  firstn (Z.to_nat (IndexInfoFindDataOffset info)) tup.

End Layout.

(** ** The layout as the specification words it *)

(** Round [x] up to the next multiple of [a]. *)
Definition align_up (a x : Z) : Z := a * ((x + (a - 1)) / a).

Definition align8 (x : Z) : Z := align_up 8 x.

(** [ceil(n / 8)] for a count [n] of attributes. *)
Definition ceil_div8 (n : Z) : Z := if n mod 8 =? 0 then n / 8 else n / 8 + 1.

Definition has_nulls (info : Z) : bool := Z.testbit info 15.
Definition has_varwidth (info : Z) : bool := Z.testbit info 14.
Definition has_count (info : Z) : bool := Z.testbit info 13.

(** The info value with its 13 SIZE bits replaced by those of [size]. *)
Definition with_size (info size : Z) : Z :=
  Z.lor (Z.land info (Z.lnot INDEX_SIZE_MASK)) (Z.land size INDEX_SIZE_MASK).

Definition spec_data_offset (header_size bitmap_size counter_size info : Z) : Z :=
  align8 (align8 (header_size + (if has_nulls info then bitmap_size else 0))
          + (if has_count info then counter_size else 0)).

Definition spec_counter_offset (header_size bitmap_size info : Z) : Z :=
  align8 (header_size + (if has_nulls info then bitmap_size else 0)).

(** ** Platforms the layout is meant for

    [uintptr_t] has 32 or 64 bits; [MAXIMUM_ALIGNOF] is a power of two up
    to 8; the header holds [t_info]; and header plus bitmap fit into a
    tuple, whose size is at most [INDEX_SIZE_MASK]. *)
Record platform_ok (P : Platform) : Prop := {
  uintptr_bits_ok : uintptr_bits = 32 \/ uintptr_bits = 64;
  MAXIMUM_ALIGNOF_ok :
    MAXIMUM_ALIGNOF = 1 \/ MAXIMUM_ALIGNOF = 2 \/
    MAXIMUM_ALIGNOF = 4 \/ MAXIMUM_ALIGNOF = 8;
  INDEX_MAX_KEYS_ok : 1 <= INDEX_MAX_KEYS;
  t_info_ok : 0 <= offsetof_t_info /\ offsetof_t_info + 2 <= sizeof_IndexTupleData;
  header_fits :
    sizeof_IndexTupleData + sizeof_IndexAttributeBitMapData <= INDEX_SIZE_MASK
}.

(** Decides [platform_ok] on a concrete platform. *)
Ltac platform_ok_tac :=
  constructor; vm_compute; repeat split; try discriminate; auto 6.

(** ** Example tuples, laid out for [pg_x86_64]

    Six bytes of heap reference, [t_info] in little-endian order, then
    the optional regions and 8 bytes of attribute data. *)

(** [t_info = 0x2018]: HAS_COUNT, 24 bytes; the counter holds [2^64 - 1]. *)
Definition example_count_tuple : IndexTuple :=
  [Byte.x00; Byte.x00; Byte.x00; Byte.x00; Byte.x01; Byte.x00; Byte.x18; Byte.x20;
   Byte.xff; Byte.xff; Byte.xff; Byte.xff; Byte.xff; Byte.xff; Byte.xff; Byte.xff;
   Byte.x2a; Byte.x00; Byte.x00; Byte.x00; Byte.x07; Byte.x00; Byte.x00; Byte.x00].

(** The same tuple with the counter set to 7. *)
Definition example_count_tuple_7 : IndexTuple :=
  [Byte.x00; Byte.x00; Byte.x00; Byte.x00; Byte.x01; Byte.x00; Byte.x18; Byte.x20;
   Byte.x07; Byte.x00; Byte.x00; Byte.x00; Byte.x00; Byte.x00; Byte.x00; Byte.x00;
   Byte.x2a; Byte.x00; Byte.x00; Byte.x00; Byte.x07; Byte.x00; Byte.x00; Byte.x00].

(** [t_info = 0x8018]: HAS_NULLS, 24 bytes; bit 2 of the bitmap is set. *)
Definition example_nulls_tuple : IndexTuple :=
  [Byte.x00; Byte.x00; Byte.x00; Byte.x00; Byte.x01; Byte.x00; Byte.x18; Byte.x80;
   Byte.x04; Byte.x00; Byte.x00; Byte.x00; Byte.x00; Byte.x00; Byte.x00; Byte.x00;
   Byte.x2a; Byte.x00; Byte.x00; Byte.x00; Byte.x07; Byte.x00; Byte.x00; Byte.x00].

(** The header and bitmap of [example_nulls_tuple] in front of other
    attribute data. *)
Definition example_nulls_tuple' : IndexTuple :=
  [Byte.x00; Byte.x00; Byte.x00; Byte.x00; Byte.x01; Byte.x00; Byte.x18; Byte.x80;
   Byte.x04; Byte.x00; Byte.x00; Byte.x00; Byte.x00; Byte.x00; Byte.x00; Byte.x00;
   Byte.x63; Byte.x00; Byte.x00; Byte.x00; Byte.x09; Byte.x00; Byte.x00; Byte.x00].

(** [example_nulls_tuple] with bits 0 and 1 of the bitmap set and bit 2 clear. *)
Definition example_nulls_tuple_3 : IndexTuple :=
  [Byte.x00; Byte.x00; Byte.x00; Byte.x00; Byte.x01; Byte.x00; Byte.x18; Byte.x80;
   Byte.x03; Byte.x00; Byte.x00; Byte.x00; Byte.x00; Byte.x00; Byte.x00; Byte.x00;
   Byte.x2a; Byte.x00; Byte.x00; Byte.x00; Byte.x07; Byte.x00; Byte.x00; Byte.x00].

(** [t_info = 0x0010]: no flag, 16 bytes. *)
Definition example_plain_tuple : IndexTuple :=
  [Byte.x00; Byte.x00; Byte.x00; Byte.x00; Byte.x01; Byte.x00; Byte.x10; Byte.x00;
   Byte.x2a; Byte.x00; Byte.x00; Byte.x00; Byte.x07; Byte.x00; Byte.x00; Byte.x00].

Definition example_int4 (cacheoff : Z) : Form_pg_attribute :=
  {| attlen := 4; attbyval := true; attalign := 4; attcacheoff := cacheoff |}.

(** Two [int4] columns with their offsets cached. *)
Definition example_desc : TupleDesc :=
  {| natts := 2; attrs := [example_int4 0; example_int4 4] |}.

(** Two [int4] columns, offsets not cached yet. *)
Definition example_desc_nocache : TupleDesc :=
  {| natts := 2; attrs := [example_int4 (-1); example_int4 (-1)] |}.

(** ** Page capacity *)

(** What [MaxIndexTuplesPerPage] takes from headers that are not part of
    the sources: [BLCKSZ] (pg_config.h), [SizeOfPageHeaderData]
    (storage/bufpage.h) and the size of [ItemIdData] (storage/itemid.h). *)
Class PageGeometry : Type := {
  BLCKSZ : Z;
  SizeOfPageHeaderData : Z;
  sizeof_ItemIdData : Z
}.

(** The default page: 8 kB blocks, 24 bytes of page header, 4-byte line
    pointers. *)
Definition pg_page_8k : PageGeometry := {|
  BLCKSZ := 8192;
  SizeOfPageHeaderData := 24;
  sizeof_ItemIdData := 4
|}.

(** The [(int)] cast: 32 bits, two's complement. *)
Definition int_cast (z : Z) : Z := (z + 2 ^ 31) mod 2 ^ 32 - 2 ^ 31.

Section Capacity.
Context {P : Platform} {G : PageGeometry}.

(** The subtraction, the sum and the division are on [Size] operands. *)
Definition MaxIndexTuplesPerPage : Z :=
  int_cast
    (Z.quot (Size (BLCKSZ - SizeOfPageHeaderData))
            (Size (MAXALIGN (sizeof_IndexTupleData + 1) + sizeof_ItemIdData))).

(** Page space that tuples of the given sizes take, each with its line
    pointer. *)
Definition page_space_used (sizes : list Z) : Z :=
  fold_right Z.add 0 sizes + Z.of_nat (length sizes) * sizeof_ItemIdData.

(** The page space of a tuple with [t_info] value [info] and [n] bytes of
    attribute data: its length, maxaligned. *)
Definition aligned_tuple_size (info n : Z) : Z :=
  MAXALIGN (IndexInfoFindDataOffset info + n).

(** A tuple "must have either data or a null bitmap or a tuple count", and
    its length fits into the SIZE bits. *)
Definition tuple_on_page (t : Z * Z) : Prop :=
  let (info, n) := t in
  0 <= n /\ IndexInfoFindDataOffset info + n <= INDEX_SIZE_MASK /\
  (1 <= n \/ has_nulls info = true \/ has_count info = true).

End Capacity.

(** Pages [MaxIndexTuplesPerPage] is meant for: the page header fits into
    the block, a block has at most 32 kB, a line pointer is not empty. *)
Record page_ok (G : PageGeometry) : Prop := {
  SizeOfPageHeaderData_ok : 0 <= SizeOfPageHeaderData <= BLCKSZ;
  BLCKSZ_ok : BLCKSZ <= 32768;
  sizeof_ItemIdData_ok : 1 <= sizeof_ItemIdData <= 32768
}.

(** The result of [index_getattr] on [tup], read as a result on [tup']:
    a call of the full walk is a call on [tup']. *)
Definition retarget (tup' : IndexTuple) (r : outcome (Datum * bool))
  : outcome (Datum * bool) :=
  match r with
  | Returns (nocache_index_getattr _ attnum tupleDesc, b) =>
      Returns (nocache_index_getattr tup' attnum tupleDesc, b)
  | _ => r
  end.

(** ** The attribute value behind the [Datum]

    [index_getattr] yields an expression; this part evaluates it.  The
    fetch and the walk are not part of the sources and follow the
    specification of the decoder. *)

(** Modelled from the spec: "variable-width types prefixed per the
    variable-length encoding convention already defined by the
    attribute-descriptor collaborator (out of scope: assumed available)".
    [var_width bs] is the width of the variable-width value whose bytes
    begin [bs]. *)
Class VarWidth : Type := {
  var_width : list byte -> Z
}.

(** A convention to compute with: the first byte holds the width. *)
Definition one_byte_width : VarWidth := {|
  var_width := fun bs =>
    match bs with
    | b :: _ => byte.unsigned b
    | [] => 0
    end
|}.

(** The descriptor with its cached offset set to [off]. *)
Definition set_attcacheoff (a : Form_pg_attribute) (off : Z) : Form_pg_attribute :=
  {| attlen := attlen a; attbyval := attbyval a; attalign := attalign a;
     attcacheoff := off |}.

(** What a descriptor says apart from the cached offset. *)
Definition att_layout (a : Form_pg_attribute) : Z * bool * Z :=
  (attlen a, attbyval a, attalign a).

Definition outcome_map {A B : Type} (f : A -> B) (m : outcome A) : outcome B :=
  x <- m ;; Returns (f x).

Section Decoder.
Context {P : Platform} {V : VarWidth}.

(** Modelled from the spec: the "type width (fixed N bytes, or variable)"
    of the value of attribute [a] that begins [T] bytes into the tuple.
    A non-negative [attlen] is the fixed width. *)
Definition att_width (a : Form_pg_attribute) (tup : IndexTuple) (T : Z) : outcome Z :=
  if 0 <=? attlen a then Returns (attlen a)
  else if in_bounds tup T 1
       then Returns (var_width (skipn (Z.to_nat T) tup))
       else UndefinedBehaviour.

(** Modelled from the spec: [fetchatt] (access/tupmacs.h) is not part of
    the sources; "the value read directly at" offset [T] is the bytes of
    the attribute there.  A read outside of the buffer is reported like
    every other access outside of it. *)
Definition fetch_value (a : Form_pg_attribute) (tup : IndexTuple) (T : Z)
  : outcome (list byte) :=
  w <- att_width a tup T ;;
  if w <? 0 then UndefinedBehaviour else load_bytes tup T (Z.to_nat w).

(** Modelled from the spec: the walk of [nocache_index_getattr]
    (indextuple.c), which is not part of the sources.  "Walk attributes
    from 1 forward, accumulating offsets using each descriptor's
    width/alignment"; on a tuple without nulls "set cached_offset on every
    attribute passed whose offset was just computed"; on a tuple with
    nulls skip "null attributes (0-byte stride)" and "do not write the
    shared cache".  [i] is the 0-based number of the first descriptor of
    [descs], [off] the offset accumulated so far, [target] the 0-based
    number asked for.  The result is the offset of the target within the
    attribute data and the descriptors after the walk.  A target beyond
    the descriptors is the spec's contract violation. *)
Fixpoint walk_from (tup : IndexTuple) (info : Z) (nulls : bool) (target : Z)
    (i off : Z) (descs : list Form_pg_attribute)
  : outcome (Z * list Form_pg_attribute) :=
  match descs with
  | [] => AssertionFailure
  | a :: rest =>
      skip <- (if nulls then att_isnull i tup sizeof_IndexTupleData
               else Returns false) ;;
      if skip then
        r <- walk_from tup info nulls target (i + 1) off rest ;;
        Returns (fst r, a :: snd r)
      else
        let here := align_up (attalign a) off in
        let a' := if nulls then a else set_attcacheoff a here in
        if i =? target then Returns (here, a' :: rest)
        else
          w <- att_width a tup (IndexInfoFindDataOffset info + here) ;;
          r <- walk_from tup info nulls target (i + 1) (here + w) rest ;;
          Returns (fst r, a' :: snd r)
  end.

(** Modelled from the spec: [nocache_index_getattr] (indextuple.c): the
    walk from attribute 1 and offset 0, then the value read at the offset
    it arrives at.  Yields the value and the descriptors after the call. *)
Definition nocache_walk (tup : IndexTuple) (attnum : Z) (tupleDesc : TupleDesc)
  : outcome (list byte * list Form_pg_attribute) :=
  info <- t_info tup ;;
  r <- walk_from tup info (is_true_C (Z.land info INDEX_NULL_MASK))
         (attnum - 1) 0 0 (attrs tupleDesc) ;;
  a <- attrs_at tupleDesc (attnum - 1) ;;
  v <- fetch_value a tup (IndexInfoFindDataOffset info + fst r) ;;
  Returns (v, snd r).

(** The value of the expression that [index_getattr] yields on [tup] with
    [tupleDesc]: the bytes of the attribute, or [None] for [(Datum) NULL],
    and the descriptors after the evaluation. *)
Definition eval_Datum (tup : IndexTuple) (tupleDesc : TupleDesc) (d : Datum)
  : outcome (option (list byte) * list Form_pg_attribute) :=
  match d with
  | fetchatt A T =>
      v <- fetch_value A tup T ;; Returns (Some v, attrs tupleDesc)
  | nocache_index_getattr tup' attnum tupleDesc' =>
      r <- nocache_walk tup' attnum tupleDesc' ;; Returns (Some (fst r), snd r)
  | Datum_NULL => Returns (None, attrs tupleDesc)
  end.

(** [get_attribute] of the specification: [index_getattr] and the value of
    what it yields.  The result is the value, the null flag and the
    descriptors after the call. *)
Definition get_attribute (tup : IndexTuple) (tupleDesc : TupleDesc)
    (attnum isnull : Z)
  : outcome (option (list byte) * bool * list Form_pg_attribute) :=
  r <- index_getattr tup attnum tupleDesc isnull ;;
  e <- eval_Datum tup tupleDesc (fst r) ;;
  Returns (fst e, snd r, snd e).

(** The walk for attribute [attnum], whose descriptor is [a], and the
    value at the offset it arrives at: what [get_attribute] gives when
    [index_getattr] calls [nocache_index_getattr] on a tuple whose [t_info]
    is [info]. *)
Definition walk_and_fetch (tup : IndexTuple) (info : Z) (tupleDesc : TupleDesc)
    (attnum : Z) (a : Form_pg_attribute)
  : outcome (option (list byte) * bool * list Form_pg_attribute) :=
  r <- walk_from tup info (has_nulls info) (attnum - 1) 0 0 (attrs tupleDesc) ;;
  v <- fetch_value a tup (IndexInfoFindDataOffset info + fst r) ;;
  Returns (Some v, false, snd r).

(** The direct read of the value of [a] at the data offset plus its cached
    offset; the descriptors stay as they are. *)
Definition direct_fetch (tup : IndexTuple) (info : Z) (tupleDesc : TupleDesc)
    (a : Form_pg_attribute)
  : outcome (option (list byte) * bool * list Form_pg_attribute) :=
  v <- fetch_value a tup (IndexInfoFindDataOffset info + attcacheoff a) ;;
  Returns (Some v, false, attrs tupleDesc).

(** Value and null flag of a result of [get_attribute]. *)
Definition value_and_flag
    (r : outcome (option (list byte) * bool * list Form_pg_attribute))
  : outcome (option (list byte) * bool) :=
  outcome_map fst r.

End Decoder.

(** Three [int4] columns, offsets not cached yet. *)
Definition example_desc3_nocache : TupleDesc :=
  {| natts := 3;
     attrs := [example_int4 (-1); example_int4 (-1); example_int4 (-1)] |}.

(** Three [int4] columns with cached offsets that fit no tuple. *)
Definition example_desc3_badcache : TupleDesc :=
  {| natts := 3;
     attrs := [example_int4 100; example_int4 200; example_int4 300] |}.

(** * Properties *)

(** ** Masks and bits *)

Lemma land_pow2 (info n : Z) :
  0 <= n -> Z.land info (2 ^ n) = if Z.testbit info n then 2 ^ n else 0.
Proof.
  intros Hn. apply Z.bits_inj'. intros m Hm.
  rewrite Z.land_spec, Z.pow2_bits_eqb by lia.
  destruct (Z.eqb_spec n m) as [-> | Hne].
  - destruct (Z.testbit info m) eqn:E; simpl.
    + now rewrite Z.pow2_bits_true.
    + now rewrite Z.bits_0.
  - rewrite andb_false_r.
    destruct (Z.testbit info n).
    + now rewrite Z.pow2_bits_false.
    + now rewrite Z.bits_0.
Qed.

Lemma is_true_C_land_pow2 (info n : Z) :
  0 <= n -> is_true_C (Z.land info (2 ^ n)) = Z.testbit info n.
Proof.
  intros Hn. rewrite land_pow2 by assumption. unfold is_true_C.
  destruct (Z.testbit info n); [|reflexivity].
  destruct (Z.eqb_spec (2 ^ n) 0) as [E|]; [|reflexivity].
  pose proof (Z.pow_pos_nonneg 2 n); lia.
Qed.

Lemma null_mask_bit (info : Z) :
  is_true_C (Z.land info INDEX_NULL_MASK) = has_nulls info.
Proof. apply (is_true_C_land_pow2 info 15); lia. Qed.

Lemma count_mask_bit (info : Z) :
  is_true_C (Z.land info INDEX_HAS_TUPLE_COUNT) = has_count info.
Proof. apply (is_true_C_land_pow2 info 13); lia. Qed.

(** ** Rounding up *)

Lemma align_up_bounds (a x : Z) :
  0 < a -> x <= align_up a x < x + a.
Proof.
  intros Ha. unfold align_up.
  pose proof (Z.div_mod (x + (a - 1)) a ltac:(lia)).
  pose proof (Z.mod_pos_bound (x + (a - 1)) a Ha). lia.
Qed.

Lemma align_up_divide (a x : Z) : (a | align_up a x).
Proof. unfold align_up. exists ((x + (a - 1)) / a). lia. Qed.

Lemma align_up_fixed (a x : Z) :
  0 < a -> (a | x) -> align_up a x = x.
Proof.
  intros Ha [q ->]. unfold align_up.
  replace (q * a + (a - 1)) with ((a - 1) + q * a) by lia.
  rewrite Z.div_add by lia. rewrite Z.div_small by lia. lia.
Qed.

Lemma align_up_fixed_trans (a b x : Z) :
  0 < a -> (a | b) -> (b | x) -> align_up a x = x.
Proof.
  intros Ha Hab Hbx. apply align_up_fixed; [assumption|].
  now apply Z.divide_trans with b.
Qed.

(** The add-and-mask form rounds up, when the sum does not wrap. *)
Lemma TYPEALIGN_bits_align_up (w k LEN : Z) :
  0 <= k <= w -> 0 <= LEN -> LEN + (2 ^ k - 1) < 2 ^ w ->
  TYPEALIGN_bits w (2 ^ k) LEN = align_up (2 ^ k) LEN.
Proof.
  intros Hk HLEN Hfit. unfold TYPEALIGN_bits, align_up.
  assert (Hpk : 0 < 2 ^ k) by (apply Z.pow_pos_nonneg; lia).
  rewrite (Z.mod_small LEN) by lia.
  rewrite (Z.mod_small (LEN + (2 ^ k - 1))) by lia.
  replace (2 ^ k - 1) with (Z.ones k) by (rewrite Z.ones_equiv; lia).
  rewrite <- (Z.land_ones _ w) by lia.
  rewrite (Z.land_comm (Z.lnot _)), Z.land_assoc, (Z.land_ones _ w) by lia.
  rewrite Z.mod_small by (rewrite Z.ones_equiv; lia).
  rewrite <- Z.ldiff_land, Z.ldiff_ones_r by lia.
  rewrite Z.shiftl_mul_pow2, Z.shiftr_div_pow2 by lia. lia.
Qed.

Lemma ceil_div8_quot (n : Z) :
  0 <= n -> Z.quot (n + 8 - 1) 8 = ceil_div8 n.
Proof.
  intros Hn. rewrite Z.quot_div_nonneg by lia. unfold ceil_div8.
  destruct (Z.eqb_spec (n mod 8) 0); Z.div_mod_to_equations; lia.
Qed.

Section LayoutFacts.
Context {P : Platform}.
Hypothesis OK : platform_ok P.

Lemma bitmap_size_bounds :
  1 <= sizeof_IndexAttributeBitMapData.
Proof.
  pose proof (INDEX_MAX_KEYS_ok P OK).
  unfold sizeof_IndexAttributeBitMapData.
  rewrite Z.quot_div_nonneg by lia. Z.div_mod_to_equations; lia.
Qed.

Lemma header_size_bounds :
  2 <= sizeof_IndexTupleData /\
  sizeof_IndexTupleData + sizeof_IndexAttributeBitMapData <= 8191.
Proof.
  pose proof (t_info_ok P OK). pose proof (header_fits P OK).
  unfold INDEX_SIZE_MASK in *. lia.
Qed.

Lemma MAXALIGN64_align8 (LEN : Z) :
  0 <= LEN <= 16384 -> MAXALIGN64 LEN = align8 LEN.
Proof.
  intros H. unfold MAXALIGN64, align8.
  apply (TYPEALIGN_bits_align_up 64 3 LEN); lia.
Qed.

Lemma MAXALIGN_align_up (LEN : Z) :
  0 <= LEN <= 16384 -> MAXALIGN LEN = align_up MAXIMUM_ALIGNOF LEN.
Proof.
  intros H. unfold MAXALIGN.
  destruct (uintptr_bits_ok P OK) as [-> | ->];
    destruct (MAXIMUM_ALIGNOF_ok P OK) as [-> | [-> | [-> | ->]]];
    first [ apply (TYPEALIGN_bits_align_up _ 0 LEN); lia
          | apply (TYPEALIGN_bits_align_up _ 1 LEN); lia
          | apply (TYPEALIGN_bits_align_up _ 2 LEN); lia
          | apply (TYPEALIGN_bits_align_up _ 3 LEN); lia ].
Qed.

Lemma MAXIMUM_ALIGNOF_divides_8 : 0 < MAXIMUM_ALIGNOF /\ (MAXIMUM_ALIGNOF | 8).
Proof.
  destruct (MAXIMUM_ALIGNOF_ok P OK) as [-> | [-> | [-> | ->]]].
  - split; [lia | now exists 8].
  - split; [lia | now exists 4].
  - split; [lia | now exists 2].
  - split; [lia | now exists 1].
Qed.

Lemma Size_small (z : Z) : 0 <= z <= 16384 -> Size z = z.
Proof.
  intros H. unfold Size. apply Z.mod_small.
  destruct (uintptr_bits_ok P OK) as [-> | ->]; lia.
Qed.

(** The counter offset is the 8-aligned end of header and bitmap. *)
Lemma counter_offset_align8 (info : Z) :
  IndexInfoFindTupleCountOffset info =
  align8 (sizeof_IndexTupleData +
          (if has_nulls info then sizeof_IndexAttributeBitMapData else 0)).
Proof.
  pose proof header_size_bounds. pose proof bitmap_size_bounds.
  unfold IndexInfoFindTupleCountOffset. rewrite null_mask_bit.
  destruct (has_nulls info); simpl.
  - apply MAXALIGN64_align8. lia.
  - rewrite Z.add_0_r. apply MAXALIGN64_align8. lia.
Qed.

(** The data offset is the counter offset plus the counter, when present. *)
Lemma data_offset_counter_offset (info : Z) :
  IndexInfoFindDataOffset info =
  IndexInfoFindTupleCountOffset info +
  (if has_count info then sizeof_IndexTupleCountData else 0).
Proof.
  pose proof header_size_bounds as Hh. pose proof bitmap_size_bounds as Hb.
  rewrite counter_offset_align8.
  unfold IndexInfoFindDataOffset. rewrite null_mask_bit, count_mask_bit.
  set (base := sizeof_IndexTupleData +
               (if has_nulls info then sizeof_IndexAttributeBitMapData else 0)).
  assert (Hbase : 0 <= base <= 8191) by (subst base; destruct (has_nulls info); lia).
  rewrite MAXALIGN64_align8 by lia.
  pose proof (align_up_bounds 8 base ltac:(lia)) as Hal. fold (align8 base) in Hal.
  set (cnt := if has_count info then sizeof_IndexTupleCountData else 0).
  assert (Hcnt : cnt = 0 \/ cnt = 8)
    by (subst cnt; unfold sizeof_IndexTupleCountData; destruct (has_count info); auto).
  rewrite MAXALIGN_align_up by lia.
  destruct MAXIMUM_ALIGNOF_divides_8 as [Hpos Hdiv].
  assert (Hd8 : (8 | align8 base + cnt)).
  { destruct (align_up_divide 8 base) as [q Hq]. fold (align8 base) in Hq.
    destruct Hcnt as [-> | ->]; [exists q | exists (q + 1)]; lia. }
  rewrite (align_up_fixed_trans MAXIMUM_ALIGNOF 8) by assumption.
  apply Size_small. lia.
Qed.

End LayoutFacts.

(** ** Loads and stores on the tuple buffer *)

Section Splice.
Context {A : Type}.
Implicit Types (l bs : list A) (o i n : nat).

Lemma splice_length l o bs :
  (o + length bs <= length l)%nat -> length (splice l o bs) = length l.
Proof.
  intros H. unfold splice.
  rewrite !length_app, length_firstn, length_skipn. lia.
Qed.

Lemma splice_nth_error_outside l o bs i :
  (o + length bs <= length l)%nat ->
  (i < o \/ o + length bs <= i)%nat ->
  nth_error (splice l o bs) i = nth_error l i.
Proof.
  intros H Hi. unfold splice.
  assert (Hf : length (firstn o l) = o) by (rewrite length_firstn; lia).
  destruct Hi as [Hi | Hi].
  - rewrite nth_error_app1 by lia.
    rewrite nth_error_firstn.
    destruct (Nat.ltb_spec i o); [reflexivity | lia].
  - rewrite nth_error_app2 by lia.
    rewrite nth_error_app2 by lia.
    rewrite nth_error_skipn, Hf. f_equal. lia.
Qed.

Lemma splice_nth_error_inside l o bs i :
  (o + length bs <= length l)%nat ->
  (i < length bs)%nat ->
  nth_error (splice l o bs) (o + i) = nth_error bs i.
Proof.
  intros H Hi. unfold splice.
  assert (Hf : length (firstn o l) = o) by (rewrite length_firstn; lia).
  rewrite nth_error_app2 by lia.
  rewrite nth_error_app1 by lia.
  f_equal. lia.
Qed.

Lemma window_nth_error l o n i :
  nth_error (firstn n (skipn o l)) i =
  if (i <? n)%nat then nth_error l (o + i) else None.
Proof. now rewrite nth_error_firstn, nth_error_skipn. Qed.

(** A window that does not meet the spliced range is unchanged. *)
Lemma window_splice_disjoint l o bs o' n :
  (o + length bs <= length l)%nat ->
  (o' + n <= o \/ o + length bs <= o')%nat ->
  firstn n (skipn o' (splice l o bs)) = firstn n (skipn o' l).
Proof.
  intros H Hd. apply nth_error_ext. intros i.
  rewrite !window_nth_error.
  destruct (Nat.ltb_spec i n); [|reflexivity].
  apply splice_nth_error_outside; [assumption | lia].
Qed.

(** The window on the spliced range holds the new elements. *)
Lemma window_splice_same l o bs :
  (o + length bs <= length l)%nat ->
  firstn (length bs) (skipn o (splice l o bs)) = bs.
Proof.
  intros H. apply nth_error_ext. intros i.
  rewrite window_nth_error.
  destruct (Nat.ltb_spec i (length bs)).
  - now apply splice_nth_error_inside.
  - symmetry. apply nth_error_None. lia.
Qed.

Lemma skipn_splice_after l o bs o' :
  (o + length bs <= length l)%nat ->
  (o + length bs <= o')%nat ->
  skipn o' (splice l o bs) = skipn o' l.
Proof.
  intros H Hd. apply nth_error_ext. intros i.
  rewrite !nth_error_skipn.
  apply splice_nth_error_outside; [assumption | lia].
Qed.

Lemma firstn_splice_before l o bs o' :
  (o + length bs <= length l)%nat ->
  (o' <= o)%nat ->
  firstn o' (splice l o bs) = firstn o' l.
Proof.
  intros H Hd. apply nth_error_ext. intros i.
  rewrite !nth_error_firstn.
  destruct (Nat.ltb_spec i o'); [|reflexivity].
  apply splice_nth_error_outside; [assumption | lia].
Qed.

End Splice.

Lemma bind_Returns {A B : Type} (m : outcome A) (k : A -> outcome B) (b : B) :
  bind m k = Returns b -> exists a, m = Returns a /\ k a = Returns b.
Proof. destruct m; simpl; intros H; try discriminate. now exists a. Qed.

Section Memory.
Context {P : Platform}.
Implicit Types (tup : IndexTuple) (off : Z) (bs : list byte).

Lemma in_bounds_true tup off n :
  in_bounds tup off n = true <->
  0 <= off /\ off + Z.of_nat n <= Z.of_nat (length tup).
Proof.
  unfold in_bounds. rewrite andb_true_iff, Z.leb_le, Z.leb_le. tauto.
Qed.

Lemma encode_scalar_length n v : length (encode_scalar n v) = n.
Proof.
  unfold encode_scalar. destruct byte_order.
  - apply length_le_split.
  - rewrite length_rev. apply length_le_split.
Qed.

Lemma decode_encode_scalar n v :
  decode_scalar (encode_scalar n v) = v mod 2 ^ (Z.of_nat n * 8).
Proof.
  unfold decode_scalar, encode_scalar. destruct byte_order.
  - apply le_combine_split.
  - rewrite rev_involutive. apply le_combine_split.
Qed.

Lemma store_bytes_Returns tup off bs tup' :
  store_bytes tup off bs = Returns tup' ->
  0 <= off /\ off + Z.of_nat (length bs) <= Z.of_nat (length tup) /\
  tup' = splice tup (Z.to_nat off) bs.
Proof.
  unfold store_bytes. destruct (in_bounds tup off (length bs)) eqn:E; [|discriminate].
  apply in_bounds_true in E. intros [= <-]. tauto.
Qed.

Lemma store_bytes_length tup off bs tup' :
  store_bytes tup off bs = Returns tup' -> length tup' = length tup.
Proof.
  intros H. apply store_bytes_Returns in H. destruct H as (H0 & H1 & ->).
  apply splice_length. lia.
Qed.

Lemma store_bytes_in_bounds tup off bs tup' o n :
  store_bytes tup off bs = Returns tup' -> in_bounds tup' o n = in_bounds tup o n.
Proof.
  intros H. unfold in_bounds. now rewrite (store_bytes_length _ _ _ _ H).
Qed.

Lemma load_store_same tup off bs tup' :
  store_bytes tup off bs = Returns tup' ->
  load_bytes tup' off (length bs) = Returns bs.
Proof.
  intros H. unfold load_bytes. rewrite (store_bytes_in_bounds _ _ _ _ _ _ H).
  apply store_bytes_Returns in H. destruct H as (H0 & H1 & ->).
  replace (in_bounds tup off (length bs)) with true
    by (symmetry; apply in_bounds_true; lia).
  f_equal. apply window_splice_same. lia.
Qed.

Lemma load_store_disjoint tup off bs tup' o n :
  store_bytes tup off bs = Returns tup' ->
  o + Z.of_nat n <= off \/ off + Z.of_nat (length bs) <= o ->
  load_bytes tup' o n = load_bytes tup o n.
Proof.
  intros H Hd. unfold load_bytes. rewrite (store_bytes_in_bounds _ _ _ _ _ _ H).
  destruct (in_bounds tup o n) eqn:E; [|reflexivity].
  apply in_bounds_true in E.
  apply store_bytes_Returns in H. destruct H as (H0 & H1 & ->).
  f_equal. apply window_splice_disjoint; lia.
Qed.

Lemma store_bytes_nth_error tup off bs tup' (i : nat) :
  store_bytes tup off bs = Returns tup' ->
  Z.of_nat i < off \/ off + Z.of_nat (length bs) <= Z.of_nat i ->
  nth_error tup' i = nth_error tup i.
Proof.
  intros H Hd. apply store_bytes_Returns in H. destruct H as (H0 & H1 & ->).
  apply splice_nth_error_outside; lia.
Qed.

Lemma store_bytes_total tup off bs :
  in_bounds tup off (length bs) = true ->
  exists tup', store_bytes tup off bs = Returns tup'.
Proof. intros H. unfold store_bytes. rewrite H. eauto. Qed.

Lemma load_bytes_Returns tup off n bs :
  load_bytes tup off n = Returns bs -> in_bounds tup off n = true.
Proof. unfold load_bytes. destruct (in_bounds tup off n); [reflexivity | discriminate]. Qed.

(** A store to the counter, read back. *)
Lemma load_store_uint64 tup off v tup' :
  store_uint64 tup off v = Returns tup' ->
  load_uint64 tup' off = Returns (v mod 2 ^ 64).
Proof.
  unfold store_uint64, load_uint64. intros H.
  pose proof (load_store_same _ _ _ _ H) as L.
  rewrite encode_scalar_length in L. rewrite L. simpl.
  rewrite decode_encode_scalar. f_equal.
  change (Z.of_nat 8 * 8) with 64. apply Z.mod_mod. lia.
Qed.

Lemma load_uint64_in_bounds tup off v :
  load_uint64 tup off = Returns v -> in_bounds tup off 8 = true.
Proof.
  unfold load_uint64. intros H. apply bind_Returns in H.
  destruct H as (bs & H & _). eauto using load_bytes_Returns.
Qed.

Lemma store_uint64_total tup off v :
  in_bounds tup off 8 = true -> exists tup', store_uint64 tup off v = Returns tup'.
Proof.
  intros H. apply store_bytes_total. now rewrite encode_scalar_length.
Qed.

(** A store at or after the end of the header leaves [t_info] as it is. *)
Lemma t_info_store_uint64 tup off v tup' :
  offsetof_t_info + 2 <= off ->
  store_uint64 tup off v = Returns tup' ->
  t_info tup' = t_info tup.
Proof.
  intros Hoff H. unfold t_info, store_uint64 in *.
  rewrite (load_store_disjoint _ _ _ _ offsetof_t_info 2 H); [reflexivity|].
  left. simpl. lia.
Qed.

End Memory.

(** ** The layout calculator *)

Section LayoutBounds.
Context {P : Platform}.
Hypothesis OK : platform_ok P.

Lemma counter_offset_lower (info : Z) :
  sizeof_IndexTupleData +
  (if has_nulls info then sizeof_IndexAttributeBitMapData else 0)
  <= IndexInfoFindTupleCountOffset info <= 8192.
Proof.
  rewrite (counter_offset_align8 OK).
  pose proof (header_size_bounds OK). pose proof (bitmap_size_bounds OK).
  match goal with |- ?b <= align8 ?b <= _ =>
    pose proof (align_up_bounds 8 b ltac:(lia)) as Hb;
    destruct (align_up_divide 8 b) as [q Hq] end.
  unfold align8. destruct (has_nulls info); lia.
Qed.

Lemma data_offset_lower (info : Z) :
  IndexInfoFindTupleCountOffset info <= IndexInfoFindDataOffset info.
Proof.
  rewrite (data_offset_counter_offset OK). unfold sizeof_IndexTupleCountData.
  destruct (has_count info); lia.
Qed.

End LayoutBounds.

(** C1: for every header info value, the data offset that
    [IndexInfoFindDataOffset] computes is
    [align8 (align8 (header_size + (HAS_NULLS ? bitmap_size : 0)) +
    (HAS_COUNT ? counter_size : 0))], with the header size
    [sizeof (IndexTupleData)], a bitmap of [ceil (INDEX_MAX_KEYS / 8)] bytes
    and a counter of 8 bytes. *)
Theorem data_offset_formula (P : Platform) (OK : platform_ok P) (info : Z) :
  IndexInfoFindDataOffset info =
  spec_data_offset sizeof_IndexTupleData (ceil_div8 INDEX_MAX_KEYS) 8 info.
Proof.
  rewrite (data_offset_counter_offset OK), (counter_offset_align8 OK).
  unfold spec_data_offset, sizeof_IndexAttributeBitMapData,
    sizeof_IndexTupleCountData.
  pose proof (INDEX_MAX_KEYS_ok P OK).
  rewrite ceil_div8_quot by lia.
  set (base := sizeof_IndexTupleData + _).
  destruct (align_up_divide 8 base) as [q Hq]. fold (align8 base) in Hq.
  symmetry. apply align_up_fixed; [lia|].
  destruct (has_count info); [exists (q + 1) | exists q]; lia.
Qed.

(** C4: the counter offset that [IndexInfoFindTupleCountOffset] computes is
    [align8 (header_size + (HAS_NULLS ? bitmap_size : 0))]; this holds for
    every info value, so for every one that has HAS_COUNT set. *)
Theorem counter_offset_formula (P : Platform) (OK : platform_ok P) (info : Z) :
  has_count info = true ->
  IndexInfoFindTupleCountOffset info =
  spec_counter_offset sizeof_IndexTupleData (ceil_div8 INDEX_MAX_KEYS) info.
Proof.
  intros _. rewrite (counter_offset_align8 OK).
  unfold spec_counter_offset, sizeof_IndexAttributeBitMapData.
  pose proof (INDEX_MAX_KEYS_ok P OK).
  now rewrite ceil_div8_quot by lia.
Qed.

(** The two offsets are functions of bits 15 and 13 of the info value. *)
Lemma offsets_depend_on_two_flags (P : Platform) (info info' : Z) :
  has_nulls info = has_nulls info' ->
  has_count info = has_count info' ->
  IndexInfoFindDataOffset info = IndexInfoFindDataOffset info' /\
  IndexInfoFindTupleCountOffset info = IndexInfoFindTupleCountOffset info'.
Proof.
  intros Hn Hc. unfold IndexInfoFindDataOffset, IndexInfoFindTupleCountOffset.
  rewrite !null_mask_bit, !count_mask_bit, Hn, Hc. split; reflexivity.
Qed.

(** C8: flipping the HAS_VARWIDTH bit (bit 14) of an info value, or
    replacing its 13 SIZE bits by any others, changes neither the data
    offset nor the counter offset. *)
Theorem offsets_ignore_varwidth_and_size (P : Platform) (info size : Z) :
  (IndexInfoFindDataOffset (Z.lxor info INDEX_VAR_MASK) =
     IndexInfoFindDataOffset info /\
   IndexInfoFindTupleCountOffset (Z.lxor info INDEX_VAR_MASK) =
     IndexInfoFindTupleCountOffset info) /\
  (IndexInfoFindDataOffset (with_size info size) =
     IndexInfoFindDataOffset info /\
   IndexInfoFindTupleCountOffset (with_size info size) =
     IndexInfoFindTupleCountOffset info).
Proof.
  split; apply offsets_depend_on_two_flags;
    unfold has_nulls, has_count, with_size;
    rewrite ?Z.lxor_spec, ?Z.lor_spec, ?Z.land_spec, ?Z.lnot_spec by lia;
    simpl; rewrite ?xorb_false_r, ?andb_true_r, ?andb_false_r, ?orb_false_r;
    reflexivity.
Qed.

(** C10: the regions are aligned and do not overlap.  The counter offset
    is a multiple of 8 and lies at or after the end of the header, and of
    the bitmap when HAS_NULLS is set; the data offset is a multiple of
    [MAXIMUM_ALIGNOF]; and when HAS_COUNT is set the data offset is at
    least the counter offset plus 8. *)
Theorem regions_aligned_and_disjoint (P : Platform) (OK : platform_ok P) (info : Z) :
  (8 | IndexInfoFindTupleCountOffset info) /\
  sizeof_IndexTupleData +
    (if has_nulls info then sizeof_IndexAttributeBitMapData else 0)
    <= IndexInfoFindTupleCountOffset info /\
  (MAXIMUM_ALIGNOF | IndexInfoFindDataOffset info) /\
  IndexInfoFindTupleCountOffset info <= IndexInfoFindDataOffset info /\
  (has_count info = true ->
   IndexInfoFindTupleCountOffset info + 8 <= IndexInfoFindDataOffset info).
Proof.
  assert (H8 : (8 | IndexInfoFindTupleCountOffset info))
    by (rewrite (counter_offset_align8 OK); apply align_up_divide).
  split; [exact H8|].
  split; [apply (counter_offset_lower OK)|].
  split.
  - destruct (MAXIMUM_ALIGNOF_divides_8 OK) as [_ Hd].
    apply Z.divide_trans with 8; [exact Hd|].
    rewrite (data_offset_counter_offset OK). unfold sizeof_IndexTupleCountData.
    destruct H8 as [q Hq]. rewrite Hq.
    destruct (has_count info); [exists (q + 1) | exists q]; lia.
  - split; [apply (data_offset_lower OK)|].
    intros Hc. rewrite (data_offset_counter_offset OK), Hc.
    unfold sizeof_IndexTupleCountData. lia.
Qed.

(** ** The counter accessors *)

Section CounterFacts.
Context {P : Platform}.
Implicit Types (tup : IndexTuple) (info : Z).

Lemma get_count_guarded tup info :
  t_info tup = Returns info ->
  index_tuple_get_count tup =
  if has_count info
  then load_uint64 tup (IndexInfoFindTupleCountOffset info)
  else AssertionFailure.
Proof.
  intros H. unfold index_tuple_get_count, IndexTupleHasTupleCount, Assert.
  rewrite H. simpl. rewrite count_mask_bit.
  destruct (has_count info); reflexivity.
Qed.

Lemma set_count_guarded tup info v :
  t_info tup = Returns info ->
  index_tuple_set_count tup v =
  if has_count info
  then store_uint64 tup (IndexInfoFindTupleCountOffset info) v
  else AssertionFailure.
Proof.
  intros H. unfold index_tuple_set_count, IndexTupleHasTupleCount, Assert.
  rewrite H. simpl. rewrite count_mask_bit.
  destruct (has_count info); reflexivity.
Qed.

Lemma add_count_guarded tup info d :
  t_info tup = Returns info ->
  index_tuple_add_count tup d =
  if has_count info
  then old <- load_uint64 tup (IndexInfoFindTupleCountOffset info) ;;
       store_uint64 tup (IndexInfoFindTupleCountOffset info) (old + d)
  else AssertionFailure.
Proof.
  intros H. unfold index_tuple_add_count, IndexTupleHasTupleCount, Assert.
  rewrite H. simpl. rewrite count_mask_bit.
  destruct (has_count info); reflexivity.
Qed.

Hypothesis OK : platform_ok P.

Lemma counter_after_t_info info :
  offsetof_t_info + 2 <= IndexInfoFindTupleCountOffset info.
Proof.
  pose proof (counter_offset_lower OK info). pose proof (t_info_ok P OK).
  pose proof (bitmap_size_bounds OK). destruct (has_nulls info); lia.
Qed.

(** One [index_tuple_add_count] on a tuple whose counter reads [old]. *)
Lemma add_count_step tup info old d :
  t_info tup = Returns info -> has_count info = true ->
  index_tuple_get_count tup = Returns old ->
  exists tup',
    index_tuple_add_count tup d = Returns tup' /\
    t_info tup' = Returns info /\
    index_tuple_get_count tup' = Returns ((old + d) mod 2 ^ 64).
Proof.
  intros Hi Hc Hg.
  rewrite (get_count_guarded _ _ Hi), Hc in Hg.
  destruct (store_uint64_total tup (IndexInfoFindTupleCountOffset info) (old + d)
              (load_uint64_in_bounds _ _ _ Hg)) as [tup' Hs].
  assert (Hi' : t_info tup' = Returns info).
  { rewrite <- Hi. eapply t_info_store_uint64; [apply counter_after_t_info | exact Hs]. }
  exists tup'. split; [|split].
  - rewrite (add_count_guarded _ _ _ Hi), Hc, Hg. exact Hs.
  - exact Hi'.
  - rewrite (get_count_guarded _ _ Hi'), Hc.
    eapply load_store_uint64. exact Hs.
Qed.

(** What a store to the counter leaves as it is. *)
Lemma store_counter_frame tup info w tup' :
  t_info tup = Returns info -> has_count info = true ->
  store_uint64 tup (IndexInfoFindTupleCountOffset info) w = Returns tup' ->
  length tup' = length tup /\
  (forall i : nat,
     Z.of_nat i < IndexInfoFindTupleCountOffset info \/
     IndexInfoFindTupleCountOffset info + 8 <= Z.of_nat i ->
     nth_error tup' i = nth_error tup i) /\
  header_region tup' = header_region tup /\
  t_info tup' = Returns info /\
  (has_nulls info = true -> bitmap_region tup' = bitmap_region tup) /\
  data_region info tup' = data_region info tup.
Proof.
  intros Hi Hc Hs.
  pose proof (counter_offset_lower OK info) as Hlow.
  pose proof (data_offset_counter_offset OK info) as Hdata.
  rewrite Hc in Hdata. unfold sizeof_IndexTupleCountData in Hdata.
  pose proof (header_size_bounds OK) as Hh. pose proof (bitmap_size_bounds OK) as Hb.
  assert (Hi' : t_info tup' = Returns info).
  { rewrite <- Hi. eapply t_info_store_uint64; [apply counter_after_t_info | exact Hs]. }
  unfold store_uint64 in Hs.
  pose proof (store_bytes_length _ _ _ _ Hs) as Hlen.
  pose proof (fun i => store_bytes_nth_error _ _ _ _ i Hs) as Hnth.
  apply store_bytes_Returns in Hs. destruct Hs as (H0 & H1 & ->).
  rewrite encode_scalar_length in *. change (Z.of_nat 8) with 8 in *.
  repeat split; try assumption.
  - unfold header_region. apply firstn_splice_before;
      rewrite ?encode_scalar_length; destruct (has_nulls info); lia.
  - intros Hn. rewrite Hn in Hlow. unfold bitmap_region.
    apply window_splice_disjoint; rewrite ?encode_scalar_length; lia.
  - unfold data_region. apply skipn_splice_after;
      rewrite ?encode_scalar_length; lia.
Qed.

End CounterFacts.

(** C5: each of [index_tuple_get_count], [index_tuple_set_count] and
    [index_tuple_add_count] asserts HAS_COUNT first: on a tuple whose flag
    is clear the call stops with an assertion failure; it neither returns
    nor reaches the access to the counter. *)
Theorem counter_access_asserts_has_count (P : Platform)
    (tup : IndexTuple) (info v : Z) :
  t_info tup = Returns info -> has_count info = false ->
  index_tuple_get_count tup = AssertionFailure /\
  index_tuple_set_count tup v = AssertionFailure /\
  index_tuple_add_count tup v = AssertionFailure.
Proof.
  intros Hi Hc.
  rewrite (get_count_guarded _ _ Hi), (set_count_guarded _ _ _ Hi),
    (add_count_guarded _ _ _ Hi), Hc.
  repeat split.
Qed.

(** C6: on a tuple with HAS_COUNT set whose counter reads [initial], two
    calls of [index_tuple_add_count], with [d1] and then [d2], both
    return, and [index_tuple_get_count] then reads
    [(initial + d1 + d2) mod 2^64]. *)
Theorem add_count_twice (P : Platform) (OK : platform_ok P)
    (tup : IndexTuple) (info initial d1 d2 : Z) :
  t_info tup = Returns info -> has_count info = true ->
  index_tuple_get_count tup = Returns initial ->
  exists tup1 tup2,
    index_tuple_add_count tup d1 = Returns tup1 /\
    index_tuple_add_count tup1 d2 = Returns tup2 /\
    index_tuple_get_count tup2 = Returns ((initial + d1 + d2) mod 2 ^ 64).
Proof.
  intros Hi Hc Hg.
  destruct (add_count_step OK tup info initial d1 Hi Hc Hg) as (tup1 & Ha1 & Hi1 & Hg1).
  destruct (add_count_step OK tup1 info _ d2 Hi1 Hc Hg1) as (tup2 & Ha2 & Hi2 & Hg2).
  exists tup1, tup2. repeat split; try assumption.
  rewrite Hg2. f_equal. rewrite Z.add_mod_idemp_l by lia. reflexivity.
Qed.

(** C7: on a tuple with HAS_COUNT set, [index_tuple_set_count] and
    [index_tuple_add_count] change at most the 8 bytes at the counter
    offset.  The length of the buffer, every byte outside of those 8, the
    header (heap reference and [t_info], so SIZE and the three flags), the
    null bitmap when HAS_NULLS is set, and the attribute data are as
    before. *)
Theorem counter_writes_frame (P : Platform) (OK : platform_ok P)
    (tup tup' : IndexTuple) (info v : Z) :
  t_info tup = Returns info -> has_count info = true ->
  index_tuple_set_count tup v = Returns tup' \/
  index_tuple_add_count tup v = Returns tup' ->
  length tup' = length tup /\
  (forall i : nat,
     Z.of_nat i < IndexInfoFindTupleCountOffset info \/
     IndexInfoFindTupleCountOffset info + 8 <= Z.of_nat i ->
     nth_error tup' i = nth_error tup i) /\
  header_region tup' = header_region tup /\
  (t_info tup' = Returns info /\
   IndexTupleSize tup' = IndexTupleSize tup /\
   IndexTupleHasNulls tup' = IndexTupleHasNulls tup /\
   IndexTupleHasVarwidths tup' = IndexTupleHasVarwidths tup /\
   IndexTupleHasTupleCount tup' = IndexTupleHasTupleCount tup) /\
  (has_nulls info = true -> bitmap_region tup' = bitmap_region tup) /\
  data_region info tup' = data_region info tup.
Proof.
  intros Hi Hc Hw.
  assert (Hs : exists w,
             store_uint64 tup (IndexInfoFindTupleCountOffset info) w = Returns tup').
  { destruct Hw as [Hs | Ha].
    - rewrite (set_count_guarded _ _ _ Hi), Hc in Hs. now exists v.
    - rewrite (add_count_guarded _ _ _ Hi), Hc in Ha.
      apply bind_Returns in Ha. destruct Ha as (old & _ & Hs).
      now exists (old + v). }
  destruct Hs as [w Hs].
  destruct (store_counter_frame OK tup info w tup' Hi Hc Hs)
    as (Hlen & Hnth & Hhdr & Hi' & Hbm & Hdat).
  repeat (split; [assumption|]).
  split; [|split; assumption].
  unfold IndexTupleSize, IndexTupleHasNulls, IndexTupleHasVarwidths,
    IndexTupleHasTupleCount.
  rewrite Hi, Hi'. repeat split.
Qed.

(** ** Attribute access *)

Section GetattrFacts.
Context {P : Platform}.
Implicit Types (tup : IndexTuple) (info attnum isnull : Z) (tupleDesc : TupleDesc).

(** A load that ends within the first [k] bytes sees only those bytes. *)
Lemma load_bytes_firstn tup (k : nat) off n :
  off + Z.of_nat n <= Z.of_nat k ->
  load_bytes (firstn k tup) off n = load_bytes tup off n.
Proof.
  intros Hk. unfold load_bytes, in_bounds. rewrite length_firstn.
  destruct (Z.leb_spec 0 off) as [H0 | H0]; simpl; [|reflexivity].
  destruct (Z.leb_spec (off + Z.of_nat n) (Z.of_nat (length tup))) as [H1 | H1].
  - replace (off + Z.of_nat n <=? Z.of_nat (Nat.min k (length tup))) with true
      by (symmetry; apply Z.leb_le; lia).
    f_equal. apply nth_error_ext. intros i. rewrite !window_nth_error.
    destruct (Nat.ltb_spec i n); [|reflexivity].
    rewrite nth_error_firstn.
    destruct (Nat.ltb_spec (Z.to_nat off + i) k); [reflexivity | lia].
  - replace (off + Z.of_nat n <=? Z.of_nat (Nat.min k (length tup))) with false
      by (symmetry; apply Z.leb_gt; lia).
    reflexivity.
Qed.

Lemma load_bytes_same_prefix tup tup' (k : nat) off n :
  firstn k tup' = firstn k tup ->
  off + Z.of_nat n <= Z.of_nat k ->
  load_bytes tup' off n = load_bytes tup off n.
Proof.
  intros Hp Hk.
  rewrite <- (load_bytes_firstn tup' k off n Hk), Hp.
  now apply load_bytes_firstn.
Qed.

(** [index_getattr] once its assertion holds and [t_info] has been read. *)
Lemma index_getattr_guarded tup attnum tupleDesc isnull info :
  PointerIsValid isnull = true -> 0 < attnum ->
  t_info tup = Returns info ->
  index_getattr tup attnum tupleDesc isnull =
  if has_nulls info then
    b <- att_isnull (attnum - 1) tup sizeof_IndexTupleData ;;
    if b then Returns (Datum_NULL, true)
    else Returns (nocache_index_getattr tup attnum tupleDesc, false)
  else
    a <- attrs_at tupleDesc (attnum - 1) ;;
    if 0 <=? attcacheoff a
    then Returns (fetchatt a (IndexInfoFindDataOffset info + attcacheoff a), false)
    else Returns (nocache_index_getattr tup attnum tupleDesc, false).
Proof.
  intros Hp Hn Hi. unfold index_getattr, IndexTupleHasNulls.
  rewrite Hp. replace (0 <? attnum) with true by (symmetry; apply Z.ltb_lt; lia).
  simpl. rewrite Hi. simpl. rewrite null_mask_bit.
  destruct (has_nulls info); simpl; [reflexivity|].
  destruct (attrs_at tupleDesc (attnum - 1)) as [a| |]; reflexivity.
Qed.

Lemma index_getattr_asserts tup attnum tupleDesc isnull :
  PointerIsValid isnull = false \/ attnum <= 0 ->
  index_getattr tup attnum tupleDesc isnull = AssertionFailure.
Proof.
  intros H. unfold index_getattr.
  replace (PointerIsValid isnull && (0 <? attnum)) with false; [reflexivity|].
  symmetry. apply andb_false_iff.
  destruct H as [H | H]; [left; exact H | right; apply Z.ltb_ge; lia].
Qed.

End GetattrFacts.

(** Which way [index_getattr] goes: the direct fetch at data offset plus
    cached offset exactly when HAS_NULLS is clear and the cached offset is
    non-negative, the call of [nocache_index_getattr] in the other cases
    in which the attribute is not null. *)
Lemma index_getattr_dispatch (P : Platform)
    (tup : IndexTuple) (attnum : Z) (tupleDesc : TupleDesc) (isnull info : Z)
    (a : Form_pg_attribute) :
  PointerIsValid isnull = true -> 0 < attnum ->
  t_info tup = Returns info ->
  attrs_at tupleDesc (attnum - 1) = Returns a ->
  (index_getattr tup attnum tupleDesc isnull =
     Returns (fetchatt a (IndexInfoFindDataOffset info + attcacheoff a), false)
   <-> has_nulls info = false /\ 0 <= attcacheoff a) /\
  (has_nulls info = false -> attcacheoff a < 0 ->
   index_getattr tup attnum tupleDesc isnull =
     Returns (nocache_index_getattr tup attnum tupleDesc, false)) /\
  (has_nulls info = true ->
   att_isnull (attnum - 1) tup sizeof_IndexTupleData = Returns false ->
   index_getattr tup attnum tupleDesc isnull =
     Returns (nocache_index_getattr tup attnum tupleDesc, false)).
Proof.
  intros Hp Hn Hi Ha.
  rewrite (index_getattr_guarded tup attnum tupleDesc isnull info Hp Hn Hi), Ha.
  simpl. split; [|split].
  - destruct (has_nulls info).
    + split; [|intros [? _]; discriminate].
      destruct (att_isnull (attnum - 1) tup sizeof_IndexTupleData) as [[|]| |];
        simpl; discriminate.
    + destruct (Z.leb_spec 0 (attcacheoff a)).
      * split; [intros _; split; [reflexivity | assumption] | reflexivity].
      * split; [discriminate | intros [_ ?]; lia].
  - intros -> Hneg.
    destruct (Z.leb_spec 0 (attcacheoff a)); [lia | reflexivity].
  - intros -> ->. reflexivity.
Qed.

(** C3: when HAS_NULLS is set and the bitmap marks the attribute null,
    [index_getattr] sets [*isnull] and yields [(Datum) NULL]: neither the
    direct fetch nor the full walk is evaluated, the descriptor is not
    looked at, and the result is the same for every tuple that has the
    same bytes in front of the attribute data. *)
Theorem getattr_null_attribute (P : Platform) (OK : platform_ok P)
    (tup : IndexTuple) (attnum : Z) (tupleDesc : TupleDesc) (isnull info : Z) :
  PointerIsValid isnull = true -> 0 < attnum <= INDEX_MAX_KEYS ->
  t_info tup = Returns info -> has_nulls info = true ->
  att_isnull (attnum - 1) tup sizeof_IndexTupleData = Returns true ->
  index_getattr tup attnum tupleDesc isnull = Returns (Datum_NULL, true) /\
  forall (tup' : IndexTuple) (tupleDesc' : TupleDesc),
    before_data info tup' = before_data info tup ->
    index_getattr tup' attnum tupleDesc' isnull = Returns (Datum_NULL, true).
Proof.
  intros Hp Hn Hi Hnulls Hb.
  split.
  { rewrite (index_getattr_guarded tup attnum tupleDesc isnull info Hp (proj1 Hn) Hi).
    rewrite Hnulls, Hb. reflexivity. }
  intros tup' tupleDesc' Hpre. unfold before_data in Hpre.
  pose proof (counter_offset_lower OK info) as Hlow. rewrite Hnulls in Hlow.
  pose proof (data_offset_lower OK info) as Hdata.
  pose proof (t_info_ok P OK) as Ht.
  pose proof (bitmap_size_bounds OK) as Hbm.
  assert (Hbit : Z.shiftr (attnum - 1) 3 + 1 <= sizeof_IndexAttributeBitMapData).
  { unfold sizeof_IndexAttributeBitMapData.
    rewrite Z.shiftr_div_pow2, Z.quot_div_nonneg by lia.
    change (2 ^ 3) with 8. Z.div_mod_to_equations. lia. }
  assert (Hi' : t_info tup' = Returns info).
  { rewrite <- Hi. unfold t_info.
    rewrite (load_bytes_same_prefix tup tup' _ offsetof_t_info 2 Hpre);
      [reflexivity | lia]. }
  assert (Hb' : att_isnull (attnum - 1) tup' sizeof_IndexTupleData = Returns true).
  { rewrite <- Hb. unfold att_isnull.
    rewrite (load_bytes_same_prefix tup tup' _ _ 1 Hpre); [reflexivity | lia]. }
  rewrite (index_getattr_guarded tup' attnum tupleDesc' isnull info Hp (proj1 Hn) Hi').
  rewrite Hnulls, Hb'. reflexivity.
Qed.

(** C9, as the code has it: [index_getattr] asserts [attnum > 0] (and a
    valid [isnull] pointer) before anything else, so an attribute number
    below 1 stops the call with an assertion failure, for every tuple and
    descriptor.  The macro has no check against the number of
    descriptors. *)
Theorem getattr_asserts_positive_attnum (P : Platform)
    (tup : IndexTuple) (attnum : Z) (tupleDesc : TupleDesc) (isnull : Z) :
  attnum < 1 ->
  index_getattr tup attnum tupleDesc isnull = AssertionFailure.
Proof.
  intros H. apply index_getattr_asserts. right. lia.
Qed.

(** ** The properties at concrete tuples *)

Lemma pg_x86_64_ok : platform_ok pg_x86_64.
Proof. platform_ok_tac. Defined.

Lemma pg_be32_ok : platform_ok pg_be32.
Proof. platform_ok_tac. Defined.

Lemma data_offset_formula_witness :
  platform_ok pg_be32 /\
  @IndexInfoFindDataOffset pg_be32 0xA018 = spec_data_offset 8 4 8 0xA018.
Proof.
  split; [platform_ok_tac|].
  apply (data_offset_formula pg_be32). platform_ok_tac.
Defined.

Lemma counter_offset_formula_witness :
  platform_ok pg_x86_64 /\ has_count 0xA018 = true /\
  @IndexInfoFindTupleCountOffset pg_x86_64 0xA018 = spec_counter_offset 8 4 0xA018.
Proof.
  split; [platform_ok_tac|]. split; [reflexivity|].
  apply (counter_offset_formula pg_x86_64); [platform_ok_tac | reflexivity].
Defined.

Lemma regions_aligned_and_disjoint_witness :
  platform_ok pg_be32 /\
  (8 | 16) /\ 8 + 4 <= 16 /\ (4 | 24) /\ 16 <= 24 /\
  (has_count 0xA018 = true -> 16 + 8 <= 24).
Proof.
  split; [platform_ok_tac|].
  apply (regions_aligned_and_disjoint pg_be32 ltac:(platform_ok_tac) 0xA018).
Defined.

Lemma counter_access_asserts_has_count_witness :
  @t_info pg_x86_64 example_nulls_tuple = Returns 0x8018 /\
  has_count 0x8018 = false /\
  @index_tuple_get_count pg_x86_64 example_nulls_tuple = AssertionFailure /\
  @index_tuple_set_count pg_x86_64 example_nulls_tuple 7 = AssertionFailure /\
  @index_tuple_add_count pg_x86_64 example_nulls_tuple 7 = AssertionFailure.
Proof.
  split; [reflexivity|]. split; [reflexivity|].
  apply (counter_access_asserts_has_count pg_x86_64 example_nulls_tuple 0x8018 7);
    reflexivity.
Defined.

Lemma add_count_twice_witness :
  @index_tuple_get_count pg_x86_64 example_count_tuple = Returns (2 ^ 64 - 1) /\
  exists tup1 tup2,
    @index_tuple_add_count pg_x86_64 example_count_tuple 3 = Returns tup1 /\
    @index_tuple_add_count pg_x86_64 tup1 5 = Returns tup2 /\
    @index_tuple_get_count pg_x86_64 tup2 = Returns 7.
Proof.
  split; [reflexivity|].
  apply (add_count_twice pg_x86_64 ltac:(platform_ok_tac)
           example_count_tuple 0x2018 (2 ^ 64 - 1) 3 5); reflexivity.
Defined.

Lemma counter_writes_frame_witness :
  @index_tuple_set_count pg_x86_64 example_count_tuple 7 =
    Returns example_count_tuple_7 /\
  @header_region pg_x86_64 example_count_tuple_7 =
    @header_region pg_x86_64 example_count_tuple /\
  @t_info pg_x86_64 example_count_tuple_7 = Returns 0x2018 /\
  @data_region pg_x86_64 0x2018 example_count_tuple_7 =
    @data_region pg_x86_64 0x2018 example_count_tuple.
Proof.
  split; [reflexivity|].
  destruct (counter_writes_frame pg_x86_64 ltac:(platform_ok_tac)
              example_count_tuple example_count_tuple_7 0x2018 7
              eq_refl eq_refl (or_introl eq_refl))
    as (_ & _ & Hh & (Hi & _) & _ & Hd).
  split; [exact Hh|]. split; [exact Hi | exact Hd].
Defined.

Lemma getattr_null_attribute_witness :
  @att_isnull pg_x86_64 (3 - 1) example_nulls_tuple 8 = Returns true /\
  @index_getattr pg_x86_64 example_nulls_tuple 3 example_desc 1 =
    Returns (Datum_NULL, true) /\
  @index_getattr pg_x86_64 example_nulls_tuple' 3 example_desc_nocache 1 =
    Returns (Datum_NULL, true).
Proof.
  split; [reflexivity|].
  destruct (getattr_null_attribute pg_x86_64 ltac:(platform_ok_tac)
              example_nulls_tuple 3 example_desc 1 0x8018
              eq_refl ltac:(simpl; lia) eq_refl eq_refl eq_refl)
    as [H1 H2].
  split; [exact H1|].
  apply (H2 example_nulls_tuple' example_desc_nocache). reflexivity.
Defined.

Lemma getattr_asserts_positive_attnum_witness :
  0 < 1 /\
  @index_getattr pg_x86_64 example_plain_tuple 0 example_desc 1 = AssertionFailure.
Proof.
  split; [lia|].
  apply (getattr_asserts_positive_attnum pg_x86_64); lia.
Defined.

(** C9 as stated fails above the descriptor count.  With two descriptors
    and attribute number 3, on a tuple whose bitmap marks position 3 null,
    [index_getattr] returns a null result; on one whose bitmap does not, it
    hands the number on to the full walk; on one without nulls it indexes
    the descriptor array out of its bounds.  No assertion fails. *)
Lemma getattr_attnum_above_descriptors_counterexample :
  Z.of_nat (length (attrs example_desc)) < 3 /\
  natts example_desc < 3 /\
  @index_getattr pg_x86_64 example_nulls_tuple 3 example_desc 1 =
    Returns (Datum_NULL, true) /\
  @index_getattr pg_x86_64 example_nulls_tuple_3 3 example_desc 1 =
    Returns (nocache_index_getattr example_nulls_tuple_3 3 example_desc, false) /\
  @index_getattr pg_x86_64 example_plain_tuple 3 example_desc 1 =
    UndefinedBehaviour /\
  ~ (forall (tup : IndexTuple) (attnum : Z) (tupleDesc : TupleDesc) (isnull : Z),
       attnum < 1 \/ Z.of_nat (length (attrs tupleDesc)) < attnum ->
       @index_getattr pg_x86_64 tup attnum tupleDesc isnull = AssertionFailure).
Proof.
  split; [simpl; lia|]. split; [simpl; lia|].
  split; [reflexivity|]. split; [reflexivity|]. split; [reflexivity|].
  intros H.
  specialize (H example_nulls_tuple 3 example_desc 1 ltac:(right; simpl; lia)).
  discriminate H.
Qed.

(** * Further properties of the accessors and macros *)

(** ** More on splices and scalars *)

Section SpliceTwice.
Context {A : Type}.
Implicit Types (l bs : list A) (o i n : nat).

(** A second splice at the same place, of the same length, wins. *)
Lemma splice_splice l o bs1 bs2 :
  (o + length bs1 <= length l)%nat -> length bs2 = length bs1 ->
  splice (splice l o bs1) o bs2 = splice l o bs2.
Proof.
  intros H Hlen. apply nth_error_ext. intros i.
  pose proof (splice_length l o bs1 H) as Hl1.
  destruct (Nat.lt_ge_cases i o) as [Hi | Hi].
  - rewrite !splice_nth_error_outside by lia. reflexivity.
  - destruct (Nat.lt_ge_cases i (o + length bs1)) as [Hj | Hj].
    + replace i with (o + (i - o))%nat by lia.
      rewrite !splice_nth_error_inside by lia. reflexivity.
    + rewrite !splice_nth_error_outside by lia. reflexivity.
Qed.

(** Splicing a window of the list back in changes nothing. *)
Lemma splice_window_self l o n :
  (o + n <= length l)%nat -> splice l o (firstn n (skipn o l)) = l.
Proof.
  intros H. set (bs := firstn n (skipn o l)).
  assert (Hbs : length bs = n)
    by (subst bs; rewrite length_firstn, length_skipn; lia).
  apply nth_error_ext. intros i.
  destruct (Nat.lt_ge_cases i o) as [Hi | Hi].
  - apply splice_nth_error_outside; lia.
  - destruct (Nat.lt_ge_cases i (o + n)) as [Hj | Hj].
    + replace i with (o + (i - o))%nat at 1 by lia.
      rewrite splice_nth_error_inside by lia.
      subst bs. rewrite window_nth_error.
      destruct (Nat.ltb_spec (i - o) n); [f_equal; lia | lia].
    + apply splice_nth_error_outside; lia.
Qed.

End SpliceTwice.

Section Scalars.
Context {P : Platform}.
Implicit Types (tup : IndexTuple) (off : Z) (bs : list byte).

Lemma encode_decode_scalar bs :
  encode_scalar (length bs) (decode_scalar bs) = bs.
Proof.
  unfold decode_scalar, encode_scalar. destruct byte_order.
  - apply split_le_combine.
  - rewrite <- (length_rev bs), split_le_combine. apply rev_involutive.
Qed.

Lemma decode_scalar_bounds bs :
  0 <= decode_scalar bs < 2 ^ (8 * Z.of_nat (length bs)).
Proof.
  unfold decode_scalar. destruct byte_order.
  - apply le_combine_bound.
  - rewrite <- (length_rev bs). apply le_combine_bound.
Qed.

Lemma load_bytes_length tup off n bs :
  load_bytes tup off n = Returns bs -> length bs = n.
Proof.
  unfold load_bytes. destruct (in_bounds tup off n) eqn:E; [|discriminate].
  apply in_bounds_true in E. intros [= <-].
  rewrite length_firstn, length_skipn. lia.
Qed.

Lemma load_bytes_inv tup off n bs :
  load_bytes tup off n = Returns bs ->
  in_bounds tup off n = true /\ bs = firstn n (skipn (Z.to_nat off) tup).
Proof.
  unfold load_bytes. destruct (in_bounds tup off n); [|discriminate].
  intros [= <-]. split; reflexivity.
Qed.

Lemma load_uint64_Returns tup off c :
  load_uint64 tup off = Returns c ->
  exists bs, load_bytes tup off 8 = Returns bs /\ length bs = 8%nat /\
             decode_scalar bs = c /\ 0 <= c < 2 ^ 64.
Proof.
  unfold load_uint64. intros H. apply bind_Returns in H.
  destruct H as (bs & Hl & [= Hc]).
  pose proof (load_bytes_length _ _ _ _ Hl) as Hlen.
  exists bs. repeat split; try assumption;
    pose proof (decode_scalar_bounds bs) as Hb; rewrite Hlen in Hb;
    change (8 * Z.of_nat 8) with 64 in Hb; lia.
Qed.

Lemma load_uint64_out_of_bounds tup off :
  in_bounds tup off 8 = false -> load_uint64 tup off = UndefinedBehaviour.
Proof. intros H. unfold load_uint64, load_bytes. now rewrite H. Qed.

Lemma store_uint64_out_of_bounds tup off v :
  in_bounds tup off 8 = false -> store_uint64 tup off v = UndefinedBehaviour.
Proof.
  intros H. unfold store_uint64, store_bytes.
  now rewrite encode_scalar_length, H.
Qed.

Lemma load_uint64_total tup off :
  in_bounds tup off 8 = true -> exists c, load_uint64 tup off = Returns c.
Proof. intros H. unfold load_uint64, load_bytes. rewrite H. simpl. eauto. Qed.

(** A returning [index_tuple_get_count] has read [t_info], found
    HAS_COUNT set, and loaded the counter. *)
Lemma get_count_Returns tup c :
  index_tuple_get_count tup = Returns c ->
  exists info, t_info tup = Returns info /\ has_count info = true /\
    load_uint64 tup (IndexInfoFindTupleCountOffset info) = Returns c.
Proof.
  intros H. destruct (t_info tup) as [info| |] eqn:Hi;
    try (unfold index_tuple_get_count, IndexTupleHasTupleCount in H;
         rewrite Hi in H; discriminate).
  rewrite (get_count_guarded _ _ Hi) in H.
  destruct (has_count info) eqn:Hc; [|discriminate].
  exists info. auto.
Qed.

Lemma add_count_Returns tup d tup' :
  index_tuple_add_count tup d = Returns tup' ->
  exists info c, t_info tup = Returns info /\ has_count info = true /\
    load_uint64 tup (IndexInfoFindTupleCountOffset info) = Returns c /\
    store_uint64 tup (IndexInfoFindTupleCountOffset info) (c + d) = Returns tup'.
Proof.
  intros H. destruct (t_info tup) as [info| |] eqn:Hi;
    try (unfold index_tuple_add_count, IndexTupleHasTupleCount in H;
         rewrite Hi in H; discriminate).
  rewrite (add_count_guarded _ _ _ Hi) in H.
  destruct (has_count info) eqn:Hc; [|discriminate].
  apply bind_Returns in H. destruct H as (c & Hl & Hs).
  exists info, c. auto.
Qed.

Lemma set_count_Returns tup v tup' :
  index_tuple_set_count tup v = Returns tup' ->
  exists info, t_info tup = Returns info /\ has_count info = true /\
    store_uint64 tup (IndexInfoFindTupleCountOffset info) v = Returns tup'.
Proof.
  intros H. destruct (t_info tup) as [info| |] eqn:Hi;
    try (unfold index_tuple_set_count, IndexTupleHasTupleCount in H;
         rewrite Hi in H; discriminate).
  rewrite (set_count_guarded _ _ _ Hi) in H.
  destruct (has_count info) eqn:Hc; [|discriminate].
  exists info. auto.
Qed.

(** Two stores of a [uint64] at the same place: the second one wins. *)
Lemma store_uint64_twice tup off v1 v2 tup1 :
  store_uint64 tup off v1 = Returns tup1 ->
  store_uint64 tup1 off v2 = store_uint64 tup off v2.
Proof.
  unfold store_uint64. intros H.
  unfold store_bytes at 1 2. rewrite (store_bytes_in_bounds _ _ _ _ _ _ H).
  destruct (in_bounds tup off (length (encode_scalar 8 (v2 mod 2 ^ 64)))); [|reflexivity].
  apply store_bytes_Returns in H. destruct H as (H0 & H1 & ->).
  f_equal. apply splice_splice; [lia|].
  now rewrite !encode_scalar_length.
Qed.

End Scalars.

(** ** The counter accessors, composed *)

(** X1: what [index_tuple_set_count] stores, [index_tuple_get_count] reads
    back: after a returning [index_tuple_set_count tup v] the counter reads
    [v] as a [uint64]. *)
Theorem set_count_then_get_count (P : Platform) (OK : platform_ok P)
    (tup tup' : IndexTuple) (v : Z) :
  index_tuple_set_count tup v = Returns tup' ->
  index_tuple_get_count tup' = Returns (v mod 2 ^ 64).
Proof.
  intros H. apply set_count_Returns in H. destruct H as (info & Hi & Hc & Hs).
  assert (Hi' : t_info tup' = Returns info).
  { rewrite <- Hi. eapply t_info_store_uint64;
      [apply (counter_after_t_info OK) | exact Hs]. }
  rewrite (get_count_guarded _ _ Hi'), Hc.
  eapply load_store_uint64. exact Hs.
Qed.

(** X2: a second [index_tuple_set_count] overwrites the first: the buffer
    after setting [v1] and then [v2] is the buffer after setting [v2]
    alone. *)
Theorem set_count_overwrites (P : Platform) (OK : platform_ok P)
    (tup tup1 : IndexTuple) (v1 v2 : Z) :
  index_tuple_set_count tup v1 = Returns tup1 ->
  index_tuple_set_count tup1 v2 = index_tuple_set_count tup v2.
Proof.
  intros H. apply set_count_Returns in H. destruct H as (info & Hi & Hc & Hs).
  assert (Hi1 : t_info tup1 = Returns info).
  { rewrite <- Hi. eapply t_info_store_uint64;
      [apply (counter_after_t_info OK) | exact Hs]. }
  rewrite (set_count_guarded _ _ _ Hi), (set_count_guarded _ _ _ Hi1), Hc.
  eapply store_uint64_twice. exact Hs.
Qed.

(** X3: adding a multiple of [2^64], zero in particular, leaves the tuple
    byte for byte as it is. *)
Theorem add_count_zero_identity (P : Platform)
    (tup : IndexTuple) (c d : Z) :
  index_tuple_get_count tup = Returns c ->
  d mod 2 ^ 64 = 0 ->
  index_tuple_add_count tup d = Returns tup.
Proof.
  intros Hg Hd. apply get_count_Returns in Hg.
  destruct Hg as (info & Hi & Hc & Hl).
  rewrite (add_count_guarded _ _ _ Hi), Hc, Hl. simpl.
  apply load_uint64_Returns in Hl. destruct Hl as (bs & Hb & Hlen & Hdec & Hrange).
  unfold store_uint64.
  replace ((c + d) mod 2 ^ 64) with c.
  2:{ rewrite Z.add_mod, Hd, Z.add_0_r, Z.mod_mod by lia.
      symmetry. apply Z.mod_small. exact Hrange. }
  rewrite <- Hdec, <- Hlen, encode_decode_scalar.
  unfold store_bytes. rewrite Hlen.
  destruct (load_bytes_inv _ _ _ _ Hb) as (Hin & Hbs).
  rewrite Hin. apply in_bounds_true in Hin.
  rewrite Hbs. apply f_equal. apply splice_window_self. lia.
Qed.

(** X4: two increments are one increment by the sum: after a returning
    [index_tuple_add_count tup d1], adding [d2] gives the buffer that
    adding [d1 + d2] to [tup] gives. *)
Theorem add_count_add_count (P : Platform) (OK : platform_ok P)
    (tup tup1 : IndexTuple) (d1 d2 : Z) :
  index_tuple_add_count tup d1 = Returns tup1 ->
  index_tuple_add_count tup1 d2 = index_tuple_add_count tup (d1 + d2).
Proof.
  intros H. apply add_count_Returns in H.
  destruct H as (info & c & Hi & Hc & Hl & Hs).
  assert (Hi1 : t_info tup1 = Returns info).
  { rewrite <- Hi. eapply t_info_store_uint64;
      [apply (counter_after_t_info OK) | exact Hs]. }
  rewrite (add_count_guarded _ _ _ Hi), (add_count_guarded _ _ _ Hi1), Hc.
  rewrite Hl, (load_store_uint64 _ _ _ _ Hs). simpl.
  rewrite (store_uint64_twice _ _ _ _ _ Hs).
  unfold store_uint64. f_equal. f_equal.
  rewrite Z.add_mod_idemp_l by lia. f_equal. lia.
Qed.

(** X5: the count that [index_tuple_get_count] returns is a [uint64]. *)
Theorem get_count_range (P : Platform) (tup : IndexTuple) (c : Z) :
  index_tuple_get_count tup = Returns c -> 0 <= c < 2 ^ 64.
Proof.
  intros H. apply get_count_Returns in H. destruct H as (info & _ & _ & Hl).
  apply load_uint64_Returns in Hl. destruct Hl as (bs & _ & _ & _ & Hr). exact Hr.
Qed.

(** X6: the accessors trust the HAS_COUNT flag and do not look at the
    size of the tuple.  With the flag set, all three return when the 8
    bytes at the counter offset lie within the buffer, and all three
    access memory outside of the buffer when they do not. *)
Theorem counter_access_bounds (P : Platform) (OK : platform_ok P)
    (tup : IndexTuple) (info v : Z) :
  t_info tup = Returns info -> has_count info = true ->
  (IndexInfoFindTupleCountOffset info + 8 <= Z.of_nat (length tup) ->
   (exists c, index_tuple_get_count tup = Returns c) /\
   (exists tup', index_tuple_set_count tup v = Returns tup') /\
   (exists tup', index_tuple_add_count tup v = Returns tup')) /\
  (Z.of_nat (length tup) < IndexInfoFindTupleCountOffset info + 8 ->
   index_tuple_get_count tup = UndefinedBehaviour /\
   index_tuple_set_count tup v = UndefinedBehaviour /\
   index_tuple_add_count tup v = UndefinedBehaviour).
Proof.
  intros Hi Hc.
  rewrite (get_count_guarded _ _ Hi), (set_count_guarded _ _ _ Hi),
    (add_count_guarded _ _ _ Hi), Hc.
  pose proof (counter_offset_lower OK info) as Hlow.
  pose proof (header_size_bounds OK) as Hh. pose proof (bitmap_size_bounds OK) as Hb.
  split; intros Hlen.
  - assert (Hin : in_bounds tup (IndexInfoFindTupleCountOffset info) 8 = true)
      by (apply in_bounds_true; destruct (has_nulls info); simpl; lia).
    destruct (load_uint64_total _ _ Hin) as [c Hl].
    split; [eauto|]. split; [apply store_uint64_total; exact Hin|].
    rewrite Hl. simpl. apply store_uint64_total. exact Hin.
  - assert (Hout : in_bounds tup (IndexInfoFindTupleCountOffset info) 8 = false).
    { unfold in_bounds. apply andb_false_iff. right. apply Z.leb_gt. simpl. lia. }
    rewrite (load_uint64_out_of_bounds _ _ Hout).
    rewrite (store_uint64_out_of_bounds _ _ _ Hout). repeat split.
Qed.

(** ** The header fields *)

Lemma Size_small32 (P : Platform) (OK : platform_ok P) (z : Z) :
  0 <= z < 2 ^ 32 -> Size z = z.
Proof.
  intros H. unfold Size. apply Z.mod_small.
  destruct (uintptr_bits_ok P OK) as [-> | ->]; lia.
Qed.

Lemma t_info_range (P : Platform) (tup : IndexTuple) (info : Z) :
  t_info tup = Returns info -> 0 <= info < 2 ^ 16.
Proof.
  unfold t_info. intros H. apply bind_Returns in H.
  destruct H as (bs & Hl & [= <-]).
  pose proof (decode_scalar_bounds bs) as Hb.
  rewrite (load_bytes_length _ _ _ _ Hl) in Hb. exact Hb.
Qed.

Lemma land_size_mask (info : Z) :
  Z.land info INDEX_SIZE_MASK = info mod 2 ^ 13.
Proof. change INDEX_SIZE_MASK with (Z.ones 13). apply Z.land_ones. lia. Qed.

(** X7: [IndexTupleSize] yields the low 13 bits of the 16-bit [t_info],
    a size between 0 and 8191. *)
Theorem IndexTupleSize_range (P : Platform) (OK : platform_ok P)
    (tup : IndexTuple) (size : Z) :
  IndexTupleSize tup = Returns size ->
  0 <= size <= INDEX_SIZE_MASK /\
  exists info, t_info tup = Returns info /\ 0 <= info < 2 ^ 16 /\
               size = info mod 2 ^ 13.
Proof.
  unfold IndexTupleSize. intros H. apply bind_Returns in H.
  destruct H as (info & Hi & [= <-]).
  rewrite land_size_mask.
  pose proof (Z.mod_pos_bound info (2 ^ 13) ltac:(lia)) as Hm.
  rewrite (Size_small32 P OK) by lia.
  split; [unfold INDEX_SIZE_MASK; lia|].
  exists info. split; [exact Hi|]. split; [exact (t_info_range P tup info Hi) | reflexivity].
Qed.

(** X8: the size and the three flags are all of [t_info]: the results of
    [IndexTupleSize], [IndexTupleHasTupleCount], [IndexTupleHasVarwidths]
    and [IndexTupleHasNulls] put together by bitwise or give back the
    [t_info] of the tuple. *)
Theorem t_info_from_its_fields (P : Platform) (OK : platform_ok P)
    (tup : IndexTuple) (size c v n : Z) :
  IndexTupleSize tup = Returns size ->
  IndexTupleHasTupleCount tup = Returns c ->
  IndexTupleHasVarwidths tup = Returns v ->
  IndexTupleHasNulls tup = Returns n ->
  t_info tup = Returns (Z.lor (Z.lor (Z.lor size c) v) n).
Proof.
  unfold IndexTupleSize, IndexTupleHasTupleCount, IndexTupleHasVarwidths,
    IndexTupleHasNulls.
  intros Hs Hc Hv Hn.
  destruct (t_info tup) as [info| |] eqn:Hi; try discriminate.
  simpl in *. injection Hs as <-. injection Hc as <-.
  injection Hv as <-. injection Hn as <-.
  pose proof (t_info_range P tup info Hi) as Hr.
  rewrite land_size_mask.
  pose proof (Z.mod_pos_bound info (2 ^ 13) ltac:(lia)) as Hm.
  rewrite (Size_small32 P OK) by lia.
  rewrite <- land_size_mask, <- !Z.land_lor_distr_r.
  change (Z.lor (Z.lor (Z.lor INDEX_SIZE_MASK INDEX_HAS_TUPLE_COUNT)
                   INDEX_VAR_MASK) INDEX_NULL_MASK) with (Z.ones 16).
  rewrite Z.land_ones by lia. f_equal. symmetry. apply Z.mod_small. exact Hr.
Qed.

(** ** The counter in the layout *)

Lemma has_count_lor (info : Z) :
  has_count (Z.lor info INDEX_HAS_TUPLE_COUNT) = true /\
  has_nulls (Z.lor info INDEX_HAS_TUPLE_COUNT) = has_nulls info.
Proof.
  unfold has_count, has_nulls. rewrite !Z.lor_spec. simpl.
  split; [apply orb_true_r | apply orb_false_r].
Qed.

Lemma has_count_land_lnot (info : Z) :
  has_count (Z.land info (Z.lnot INDEX_HAS_TUPLE_COUNT)) = false /\
  has_nulls (Z.land info (Z.lnot INDEX_HAS_TUPLE_COUNT)) = has_nulls info.
Proof.
  unfold has_count, has_nulls. rewrite !Z.land_spec, !Z.lnot_spec by lia. simpl.
  split; [apply andb_false_r | apply andb_true_r].
Qed.

(** X9: what the flag HAS_COUNT does to the layout.  Setting it in an info
    value moves the data offset by exactly 8 bytes past the offset with
    the flag cleared, and leaves the counter offset where it is; with the
    flag cleared the data begin at the counter offset. *)
Theorem has_count_shifts_data_by_8 (P : Platform) (OK : platform_ok P) (info : Z) :
  IndexInfoFindDataOffset (Z.lor info INDEX_HAS_TUPLE_COUNT) =
    IndexInfoFindDataOffset (Z.land info (Z.lnot INDEX_HAS_TUPLE_COUNT)) + 8 /\
  IndexInfoFindTupleCountOffset (Z.lor info INDEX_HAS_TUPLE_COUNT) =
    IndexInfoFindTupleCountOffset (Z.land info (Z.lnot INDEX_HAS_TUPLE_COUNT)) /\
  IndexInfoFindDataOffset (Z.land info (Z.lnot INDEX_HAS_TUPLE_COUNT)) =
    IndexInfoFindTupleCountOffset (Z.land info (Z.lnot INDEX_HAS_TUPLE_COUNT)).
Proof.
  destruct (has_count_lor info) as [Hc1 Hn1].
  destruct (has_count_land_lnot info) as [Hc0 Hn0].
  rewrite !(data_offset_counter_offset OK), !(counter_offset_align8 OK).
  rewrite Hc1, Hn1, Hc0, Hn0. unfold sizeof_IndexTupleCountData.
  repeat split; lia.
Qed.

(** ** Page capacity *)

Lemma align_up_mono (a x y : Z) :
  0 < a -> x <= y -> align_up a x <= align_up a y.
Proof.
  intros Ha Hxy. unfold align_up.
  apply Z.mul_le_mono_nonneg_l; [lia|]. apply Z.div_le_mono; lia.
Qed.

Section CapacityFacts.
Context {P : Platform} {G : PageGeometry}.
Hypothesis OK : platform_ok P.
Hypothesis GOK : page_ok G.

Lemma min_slot_bounds :
  sizeof_IndexTupleData + 1 <= MAXALIGN (sizeof_IndexTupleData + 1)
  <= sizeof_IndexTupleData + 8.
Proof.
  pose proof (header_size_bounds OK) as Hh. pose proof (bitmap_size_bounds OK) as Hb.
  rewrite (MAXALIGN_align_up OK) by lia.
  destruct (MAXIMUM_ALIGNOF_divides_8 OK) as [Hpos Hdiv].
  pose proof (align_up_bounds MAXIMUM_ALIGNOF (sizeof_IndexTupleData + 1) Hpos).
  apply Z.divide_pos_le in Hdiv; lia.
Qed.

Lemma MaxIndexTuplesPerPage_div :
  MaxIndexTuplesPerPage =
  (BLCKSZ - SizeOfPageHeaderData) /
  (MAXALIGN (sizeof_IndexTupleData + 1) + sizeof_ItemIdData).
Proof.
  pose proof min_slot_bounds as Hm. pose proof (header_size_bounds OK) as Hh.
  pose proof (bitmap_size_bounds OK) as Hb.
  pose proof (SizeOfPageHeaderData_ok G GOK). pose proof (BLCKSZ_ok G GOK).
  pose proof (sizeof_ItemIdData_ok G GOK).
  unfold MaxIndexTuplesPerPage.
  rewrite !(Size_small32 P OK) by lia.
  rewrite Z.quot_div_nonneg by lia.
  set (a := BLCKSZ - SizeOfPageHeaderData) in *.
  set (d := MAXALIGN (sizeof_IndexTupleData + 1) + sizeof_ItemIdData) in *.
  assert (Hq : 0 <= a / d <= a).
  { split; [apply Z.div_pos; lia|]. apply Z.div_le_upper_bound; nia. }
  unfold int_cast. rewrite Z.mod_small by lia. lia.
Qed.

(** A tuple that has data, a bitmap or a counter takes at least the space
    of a header and one more byte, maxaligned. *)
Lemma aligned_tuple_size_lower (t : Z * Z) :
  tuple_on_page t ->
  MAXALIGN (sizeof_IndexTupleData + 1) <= aligned_tuple_size (fst t) (snd t).
Proof.
  destruct t as [info n]. simpl. intros (Hn & Hfit & Hne).
  unfold aligned_tuple_size, INDEX_SIZE_MASK in *.
  pose proof (header_size_bounds OK) as Hh. pose proof (bitmap_size_bounds OK) as Hb.
  pose proof (counter_offset_lower OK info) as Hlow.
  pose proof (data_offset_counter_offset OK info) as Hd.
  unfold sizeof_IndexTupleCountData in Hd.
  assert (Hoff : sizeof_IndexTupleData <= IndexInfoFindDataOffset info)
    by (destruct (has_nulls info), (has_count info); lia).
  rewrite (MAXALIGN_align_up OK (sizeof_IndexTupleData + 1)) by lia.
  rewrite (MAXALIGN_align_up OK (IndexInfoFindDataOffset info + n)) by lia.
  destruct (MAXIMUM_ALIGNOF_divides_8 OK) as [Hpos _].
  apply align_up_mono; [exact Hpos|].
  destruct Hne as [H1 | [Hnl | Hc]].
  - destruct (has_nulls info), (has_count info); lia.
  - rewrite Hnl in Hlow. destruct (has_count info); lia.
  - rewrite Hc in Hd. destruct (has_nulls info); lia.
Qed.

Lemma page_space_used_lower (tuples : list (Z * Z)) :
  Forall tuple_on_page tuples ->
  Z.of_nat (length tuples) *
    (MAXALIGN (sizeof_IndexTupleData + 1) + sizeof_ItemIdData)
  <= page_space_used
       (map (fun t => aligned_tuple_size (fst t) (snd t)) tuples).
Proof.
  unfold page_space_used. rewrite length_map.
  induction 1 as [| t tuples Ht _ IH].
  - simpl. lia.
  - pose proof (aligned_tuple_size_lower t Ht). simpl length.
    simpl map. simpl fold_right. nia.
Qed.

End CapacityFacts.

(** X10: [MaxIndexTuplesPerPage] is an upper bound, as its comment says:
    when tuples that each have data, a null bitmap or a counter lie on one
    page, each maxaligned and with a line pointer, there are at most
    [MaxIndexTuplesPerPage] of them. *)
Theorem MaxIndexTuplesPerPage_upper_bound (P : Platform) (G : PageGeometry)
    (OK : platform_ok P) (GOK : page_ok G) (tuples : list (Z * Z)) :
  Forall tuple_on_page tuples ->
  page_space_used (map (fun t => aligned_tuple_size (fst t) (snd t)) tuples)
    <= BLCKSZ - SizeOfPageHeaderData ->
  Z.of_nat (length tuples) <= MaxIndexTuplesPerPage.
Proof.
  intros Ht Hfit.
  pose proof (page_space_used_lower OK tuples Ht) as Hlow.
  pose proof (min_slot_bounds OK) as Hm.
  pose proof (header_size_bounds OK) as Hh.
  pose proof (sizeof_ItemIdData_ok G GOK).
  rewrite (MaxIndexTuplesPerPage_div OK GOK).
  apply Z.div_le_lower_bound; [lia|]. lia.
Qed.

(** ** More on attribute access *)

Section GetattrOutcomes.
Context {P : Platform}.
Implicit Types (tup : IndexTuple) (info attnum isnull : Z) (tupleDesc : TupleDesc).

Lemma attrs_at_outcomes tupleDesc i :
  (exists a, attrs_at tupleDesc i = Returns a) \/
  attrs_at tupleDesc i = UndefinedBehaviour.
Proof.
  unfold attrs_at. destruct (i <? 0); [now right|].
  destruct (nth_error (attrs tupleDesc) (Z.to_nat i)); [left; eauto | now right].
Qed.

(** A returning [index_getattr] has passed its assertion and read [t_info]. *)
Lemma index_getattr_Returns tup attnum tupleDesc isnull r :
  index_getattr tup attnum tupleDesc isnull = Returns r ->
  PointerIsValid isnull = true /\ 0 < attnum /\
  exists info, t_info tup = Returns info.
Proof.
  intros H.
  destruct (PointerIsValid isnull) eqn:Hp;
    [|rewrite index_getattr_asserts in H by (now left); discriminate].
  destruct (Z.ltb_spec 0 attnum) as [Hn | Hn];
    [|rewrite index_getattr_asserts in H by (right; lia); discriminate].
  split; [reflexivity|]. split; [exact Hn|].
  unfold index_getattr, IndexTupleHasNulls in H. rewrite Hp in H.
  replace (0 <? attnum) with true in H by (symmetry; apply Z.ltb_lt; lia).
  simpl in H. destruct (t_info tup) as [info| |]; try discriminate. eauto.
Qed.

End GetattrOutcomes.

(** X11: [*isnull] is set only in the null branch of [index_getattr].
    When the macro returns with [*isnull] true it has yielded
    [(Datum) NULL], the tuple has HAS_NULLS set and its bitmap marks the
    attribute null; so after a returning call on a tuple without nulls
    [*isnull] is false. *)
Theorem getattr_isnull_only_from_bitmap (P : Platform)
    (tup : IndexTuple) (attnum : Z) (tupleDesc : TupleDesc) (isnull : Z)
    (d : Datum) (b : bool) :
  index_getattr tup attnum tupleDesc isnull = Returns (d, b) ->
  b = true ->
  d = Datum_NULL /\
  exists info, t_info tup = Returns info /\ has_nulls info = true /\
    att_isnull (attnum - 1) tup sizeof_IndexTupleData = Returns true.
Proof.
  intros H Hb. subst b.
  destruct (index_getattr_Returns _ _ _ _ _ H) as (Hp & Hn & info & Hi).
  rewrite (index_getattr_guarded tup attnum tupleDesc isnull info Hp Hn Hi) in H.
  destruct (has_nulls info) eqn:Hnulls.
  - destruct (att_isnull (attnum - 1) tup sizeof_IndexTupleData) as [[|]| |] eqn:Ha;
      simpl in H; try discriminate.
    injection H as <-. split; [reflexivity|]. exists info. auto.
  - destruct (attrs_at tupleDesc (attnum - 1)) as [a| |]; simpl in H; try discriminate.
    destruct (0 <=? attcacheoff a); discriminate.
Qed.

(** X13: on a tuple without nulls [index_getattr] indexes the descriptor
    array with [attnum - 1] unchecked: with an attribute number above the
    number of descriptors it reads past the end of the array, which is
    undefined behaviour, neither an assertion failure nor a result. *)
Theorem getattr_descriptor_overrun (P : Platform)
    (tup : IndexTuple) (attnum : Z) (tupleDesc : TupleDesc) (isnull info : Z) :
  PointerIsValid isnull = true -> 0 < attnum ->
  t_info tup = Returns info -> has_nulls info = false ->
  Z.of_nat (length (attrs tupleDesc)) < attnum ->
  index_getattr tup attnum tupleDesc isnull = UndefinedBehaviour.
Proof.
  intros Hp Hn Hi Hnulls Hlen.
  rewrite (index_getattr_guarded tup attnum tupleDesc isnull info Hp Hn Hi), Hnulls.
  destruct (attrs_at_outcomes tupleDesc (attnum - 1)) as [[a Ha] | Ha].
  - unfold attrs_at in Ha. destruct (Z.ltb_spec (attnum - 1) 0); [discriminate|].
    destruct (nth_error (attrs tupleDesc) (Z.to_nat (attnum - 1))) eqn:E;
      [|discriminate].
    assert (Z.to_nat (attnum - 1) < length (attrs tupleDesc))%nat
      by (apply nth_error_Some; congruence). lia.
  - rewrite Ha. reflexivity.
Qed.

(** X14: writing the counter does not change attribute access.  After a
    returning [index_tuple_set_count] or [index_tuple_add_count],
    [index_getattr] for an attribute number up to [INDEX_MAX_KEYS] ends as
    on the tuple before: the same failure, the same null result, the same
    direct fetch at the same offset, or the full walk, now on the new
    tuple. *)
Theorem getattr_after_counter_write (P : Platform) (OK : platform_ok P)
    (tup tup' : IndexTuple) (v attnum : Z) (tupleDesc : TupleDesc) (isnull : Z) :
  index_tuple_set_count tup v = Returns tup' \/
  index_tuple_add_count tup v = Returns tup' ->
  attnum <= INDEX_MAX_KEYS ->
  index_getattr tup' attnum tupleDesc isnull =
  retarget tup' (index_getattr tup attnum tupleDesc isnull).
Proof.
  intros Hw Hk.
  assert (Hs : exists info w, t_info tup = Returns info /\ has_count info = true /\
             store_uint64 tup (IndexInfoFindTupleCountOffset info) w = Returns tup').
  { destruct Hw as [Hs | Ha].
    - apply set_count_Returns in Hs. destruct Hs as (info & ? & ? & ?).
      exists info, v. auto.
    - apply add_count_Returns in Ha. destruct Ha as (info & c & ? & ? & ? & ?).
      exists info, (c + v). auto. }
  destruct Hs as (info & w & Hi & Hc & Hs).
  destruct (PointerIsValid isnull) eqn:Hp;
    [|rewrite !index_getattr_asserts by (now left); reflexivity].
  destruct (Z.ltb_spec 0 attnum) as [Hn | Hn];
    [|rewrite !index_getattr_asserts by (right; lia); reflexivity].
  assert (Hi' : t_info tup' = Returns info).
  { rewrite <- Hi. eapply t_info_store_uint64;
      [apply (counter_after_t_info OK) | exact Hs]. }
  rewrite (index_getattr_guarded tup attnum tupleDesc isnull info Hp Hn Hi).
  rewrite (index_getattr_guarded tup' attnum tupleDesc isnull info Hp Hn Hi').
  destruct (has_nulls info) eqn:Hnulls.
  - assert (Ha : att_isnull (attnum - 1) tup' sizeof_IndexTupleData =
                 att_isnull (attnum - 1) tup sizeof_IndexTupleData).
    { unfold att_isnull. unfold store_uint64 in Hs.
      rewrite (load_store_disjoint _ _ _ _ _ 1 Hs); [reflexivity|].
      left. pose proof (counter_offset_lower OK info) as Hlow.
      rewrite Hnulls in Hlow.
      assert (Z.shiftr (attnum - 1) 3 + 1 <= sizeof_IndexAttributeBitMapData).
      { unfold sizeof_IndexAttributeBitMapData.
        rewrite Z.shiftr_div_pow2, Z.quot_div_nonneg by lia.
        change (2 ^ 3) with 8. Z.div_mod_to_equations. lia. }
      simpl. lia. }
    rewrite Ha.
    destruct (att_isnull (attnum - 1) tup sizeof_IndexTupleData) as [[|]| |];
      reflexivity.
  - destruct (attrs_at tupleDesc (attnum - 1)) as [a| |]; simpl; try reflexivity.
    destruct (0 <=? attcacheoff a); reflexivity.
Qed.

(** X15: an increment after a store is a store of the sum: after a
    returning [index_tuple_set_count tup v], adding [d] gives the buffer
    that setting [v + d] on [tup] gives. *)
Theorem set_count_then_add_count (P : Platform) (OK : platform_ok P)
    (tup tup1 : IndexTuple) (v d : Z) :
  index_tuple_set_count tup v = Returns tup1 ->
  index_tuple_add_count tup1 d = index_tuple_set_count tup (v + d).
Proof.
  intros H. apply set_count_Returns in H. destruct H as (info & Hi & Hc & Hs).
  assert (Hi1 : t_info tup1 = Returns info).
  { rewrite <- Hi. eapply t_info_store_uint64;
      [apply (counter_after_t_info OK) | exact Hs]. }
  rewrite (add_count_guarded _ _ _ Hi1), (set_count_guarded _ _ _ Hi), Hc.
  rewrite (load_store_uint64 _ _ _ _ Hs). simpl.
  rewrite (store_uint64_twice _ _ _ _ _ Hs).
  unfold store_uint64. f_equal. f_equal.
  now rewrite Z.add_mod_idemp_l by lia.
Qed.

(** X16: the direct fetch of [index_getattr] stays in the attribute data.
    When the macro yields [fetchatt] at offset [T], the tuple has no
    nulls, [*isnull] is false, and [T] is the data offset plus the cached
    offset: not before the data offset, so past the header and, with
    HAS_COUNT set, past the 8 bytes of the counter. *)
Theorem getattr_fetch_in_data_region (P : Platform) (OK : platform_ok P)
    (tup : IndexTuple) (attnum : Z) (tupleDesc : TupleDesc) (isnull : Z)
    (a : Form_pg_attribute) (T : Z) (b : bool) :
  index_getattr tup attnum tupleDesc isnull = Returns (fetchatt a T, b) ->
  exists info,
    t_info tup = Returns info /\ has_nulls info = false /\ b = false /\
    T = IndexInfoFindDataOffset info + attcacheoff a /\
    IndexInfoFindDataOffset info <= T /\
    sizeof_IndexTupleData <= T /\
    (has_count info = true -> IndexInfoFindTupleCountOffset info + 8 <= T).
Proof.
  intros H.
  destruct (index_getattr_Returns _ _ _ _ _ H) as (Hp & Hn & info & Hi).
  rewrite (index_getattr_guarded tup attnum tupleDesc isnull info Hp Hn Hi) in H.
  exists info. split; [exact Hi|].
  destruct (has_nulls info) eqn:Hnulls.
  - destruct (att_isnull (attnum - 1) tup sizeof_IndexTupleData) as [[|]| |];
      simpl in H; discriminate.
  - destruct (attrs_at tupleDesc (attnum - 1)) as [a0| |]; simpl in H;
      try discriminate.
    destruct (Z.leb_spec 0 (attcacheoff a0)) as [Hoff | Hoff]; [|discriminate].
    injection H as <- <- <-.
    pose proof (counter_offset_lower OK info) as Hlow. rewrite Hnulls in Hlow.
    pose proof (data_offset_counter_offset OK info) as Hd.
    unfold sizeof_IndexTupleCountData in Hd.
    repeat split; try lia.
    + destruct (has_count info); lia.
    + intros Hc. rewrite Hc in Hd. lia.
Qed.

(** ** The further properties at concrete tuples *)

Lemma set_count_then_get_count_witness :
  @index_tuple_set_count pg_x86_64 example_count_tuple 7 =
    Returns example_count_tuple_7 /\
  @index_tuple_get_count pg_x86_64 example_count_tuple_7 = Returns 7.
Proof.
  split; [reflexivity|].
  apply (set_count_then_get_count pg_x86_64 ltac:(platform_ok_tac)
           example_count_tuple example_count_tuple_7 7). reflexivity.
Defined.

Lemma set_count_overwrites_witness :
  @index_tuple_set_count pg_x86_64 example_count_tuple 7 =
    Returns example_count_tuple_7 /\
  @index_tuple_set_count pg_x86_64 example_count_tuple_7 9 =
    @index_tuple_set_count pg_x86_64 example_count_tuple 9.
Proof.
  split; [reflexivity|].
  apply (set_count_overwrites pg_x86_64 ltac:(platform_ok_tac)
           example_count_tuple example_count_tuple_7 7 9). reflexivity.
Defined.

Lemma add_count_zero_identity_witness :
  @index_tuple_get_count pg_x86_64 example_count_tuple = Returns (2 ^ 64 - 1) /\
  2 ^ 64 mod 2 ^ 64 = 0 /\
  @index_tuple_add_count pg_x86_64 example_count_tuple (2 ^ 64) =
    Returns example_count_tuple.
Proof.
  split; [reflexivity|]. split; [reflexivity|].
  apply (add_count_zero_identity pg_x86_64 example_count_tuple
           (2 ^ 64 - 1) (2 ^ 64)); reflexivity.
Defined.

Lemma add_count_add_count_witness :
  @index_tuple_add_count pg_x86_64 example_count_tuple 8 =
    Returns example_count_tuple_7 /\
  @index_tuple_add_count pg_x86_64 example_count_tuple_7 5 =
    @index_tuple_add_count pg_x86_64 example_count_tuple (8 + 5).
Proof.
  split; [reflexivity|].
  apply (add_count_add_count pg_x86_64 ltac:(platform_ok_tac)
           example_count_tuple example_count_tuple_7 8 5). reflexivity.
Defined.

Lemma get_count_range_witness :
  @index_tuple_get_count pg_x86_64 example_count_tuple = Returns (2 ^ 64 - 1) /\
  0 <= 2 ^ 64 - 1 < 2 ^ 64.
Proof.
  split; [reflexivity|].
  apply (get_count_range pg_x86_64 example_count_tuple). reflexivity.
Defined.

Lemma counter_access_bounds_witness :
  (exists c, @index_tuple_get_count pg_x86_64 example_count_tuple = Returns c) /\
  @index_tuple_get_count pg_x86_64 (firstn 12 example_count_tuple) =
    UndefinedBehaviour.
Proof.
  split.
  - apply (proj1 (counter_access_bounds pg_x86_64 ltac:(platform_ok_tac)
                    example_count_tuple 0x2018 7 eq_refl eq_refl)).
    vm_compute. discriminate.
  - apply (proj2 (counter_access_bounds pg_x86_64 ltac:(platform_ok_tac)
                    (firstn 12 example_count_tuple) 0x2018 7 eq_refl eq_refl)).
    vm_compute. reflexivity.
Defined.

Lemma IndexTupleSize_range_witness :
  @IndexTupleSize pg_x86_64 example_count_tuple = Returns 24 /\
  0 <= 24 <= INDEX_SIZE_MASK.
Proof.
  split; [reflexivity|].
  apply (IndexTupleSize_range pg_x86_64 ltac:(platform_ok_tac)
           example_count_tuple 24). reflexivity.
Defined.

Lemma t_info_from_its_fields_witness :
  @t_info pg_x86_64 example_count_tuple =
    Returns (Z.lor (Z.lor (Z.lor 24 0x2000) 0) 0).
Proof.
  apply (t_info_from_its_fields pg_x86_64 ltac:(platform_ok_tac)
           example_count_tuple 24 0x2000 0 0); reflexivity.
Defined.

Lemma has_count_shifts_data_by_8_witness :
  platform_ok pg_be32 /\
  @IndexInfoFindDataOffset pg_be32 (Z.lor 0x8018 INDEX_HAS_TUPLE_COUNT) =
    @IndexInfoFindDataOffset pg_be32
      (Z.land 0x8018 (Z.lnot INDEX_HAS_TUPLE_COUNT)) + 8.
Proof.
  split; [platform_ok_tac|].
  apply (has_count_shifts_data_by_8 pg_be32 ltac:(platform_ok_tac) 0x8018).
Defined.

Lemma MaxIndexTuplesPerPage_upper_bound_witness :
  platform_ok pg_x86_64 /\ page_ok pg_page_8k /\
  Z.of_nat (length [(0x0010, 8); (0x2018, 8); (0x8018, 0)]) <=
    @MaxIndexTuplesPerPage pg_x86_64 pg_page_8k.
Proof.
  split; [platform_ok_tac|].
  split; [constructor; vm_compute; repeat split; discriminate|].
  apply (MaxIndexTuplesPerPage_upper_bound pg_x86_64 pg_page_8k
           ltac:(platform_ok_tac)
           ltac:(constructor; vm_compute; repeat split; discriminate)).
  - repeat (apply Forall_cons;
      [split; [lia|]; split; [vm_compute; discriminate|];
       first [left; lia | right; left; reflexivity | right; right; reflexivity]|]).
    apply Forall_nil.
  - vm_compute. discriminate.
Defined.

Lemma getattr_isnull_only_from_bitmap_witness :
  @index_getattr pg_x86_64 example_nulls_tuple 3 example_desc 1 =
    Returns (Datum_NULL, true) /\
  Datum_NULL = Datum_NULL /\
  exists info,
    @t_info pg_x86_64 example_nulls_tuple = Returns info /\
    has_nulls info = true /\
    @att_isnull pg_x86_64 (3 - 1) example_nulls_tuple 8 = Returns true.
Proof.
  split; [reflexivity|].
  apply (getattr_isnull_only_from_bitmap pg_x86_64 example_nulls_tuple 3
           example_desc 1 Datum_NULL true); reflexivity.
Defined.

Lemma getattr_descriptor_overrun_witness :
  Z.of_nat (length (attrs example_desc)) < 3 /\
  @index_getattr pg_x86_64 example_plain_tuple 3 example_desc 1 =
    UndefinedBehaviour.
Proof.
  split; [simpl; lia|].
  apply (getattr_descriptor_overrun pg_x86_64 example_plain_tuple 3
           example_desc 1 0x0010); [reflexivity | lia | reflexivity | reflexivity|].
  simpl. lia.
Defined.

Lemma getattr_after_counter_write_witness :
  @index_tuple_set_count pg_x86_64 example_count_tuple 7 =
    Returns example_count_tuple_7 /\
  @index_getattr pg_x86_64 example_count_tuple_7 2 example_desc 1 =
    retarget example_count_tuple_7
      (@index_getattr pg_x86_64 example_count_tuple 2 example_desc 1).
Proof.
  split; [reflexivity|].
  apply (getattr_after_counter_write pg_x86_64 ltac:(platform_ok_tac)
           example_count_tuple example_count_tuple_7 7 2 example_desc 1).
  - left. reflexivity.
  - simpl. lia.
Defined.

Lemma set_count_then_add_count_witness :
  @index_tuple_set_count pg_x86_64 example_count_tuple 7 =
    Returns example_count_tuple_7 /\
  @index_tuple_add_count pg_x86_64 example_count_tuple_7 5 =
    @index_tuple_set_count pg_x86_64 example_count_tuple (7 + 5).
Proof.
  split; [reflexivity|].
  apply (set_count_then_add_count pg_x86_64 ltac:(platform_ok_tac)
           example_count_tuple example_count_tuple_7 7 5). reflexivity.
Defined.

Lemma getattr_fetch_in_data_region_witness :
  @index_getattr pg_x86_64 example_count_tuple 2 example_desc 1 =
    Returns (fetchatt (example_int4 4) 20, false) /\
  exists info,
    @t_info pg_x86_64 example_count_tuple = Returns info /\
    has_nulls info = false /\ false = false /\
    20 = @IndexInfoFindDataOffset pg_x86_64 info + attcacheoff (example_int4 4) /\
    @IndexInfoFindDataOffset pg_x86_64 info <= 20 /\
    @sizeof_IndexTupleData pg_x86_64 <= 20 /\
    (has_count info = true ->
     @IndexInfoFindTupleCountOffset pg_x86_64 info + 8 <= 20).
Proof.
  split; [reflexivity|].
  apply (getattr_fetch_in_data_region pg_x86_64 ltac:(platform_ok_tac)
           example_count_tuple 2 example_desc 1 (example_int4 4) 20 false).
  reflexivity.
Defined.

(** ** The value of an attribute: direct fetch and walk *)

Lemma outcome_map_fst_bind {A B C : Type} (m : outcome (A * B)) (g : A * B -> C) :
  outcome_map fst (r <- m ;; Returns (fst r, g r)) = outcome_map fst m.
Proof. destruct m; reflexivity. Qed.

Section DecoderFacts.
Context {P : Platform} {V : VarWidth}.
Implicit Types (tup : IndexTuple) (info attnum isnull : Z) (tupleDesc : TupleDesc).

Lemma att_width_layout (a a' : Form_pg_attribute) tup T :
  att_layout a' = att_layout a -> att_width a' tup T = att_width a tup T.
Proof. unfold att_layout, att_width. intros [= -> _ _]. reflexivity. Qed.

Lemma fetch_value_layout (a a' : Form_pg_attribute) tup T :
  att_layout a' = att_layout a -> fetch_value a' tup T = fetch_value a tup T.
Proof.
  intros H. unfold fetch_value. now rewrite (att_width_layout a a' tup T H).
Qed.

(** The offset that the walk arrives at does not depend on any cached
    offset. *)
Lemma walk_from_ignores_cache tup info nulls target
    (descs descs' : list Form_pg_attribute) :
  map att_layout descs' = map att_layout descs ->
  forall i off,
    outcome_map fst (walk_from tup info nulls target i off descs') =
    outcome_map fst (walk_from tup info nulls target i off descs).
Proof.
  revert descs'. induction descs as [| a rest IH]; intros [| a' rest'] Hm;
    try discriminate; [reflexivity|].
  simpl in Hm.
  assert (Ha : att_layout a' = att_layout a) by congruence.
  assert (Hrest : map att_layout rest' = map att_layout rest) by congruence.
  intros i off. simpl walk_from.
  assert (Hal : attalign a' = attalign a)
    by (unfold att_layout in Ha; congruence).
  destruct (if nulls then att_isnull i tup sizeof_IndexTupleData
            else Returns false) as [[|] | |]; simpl; try reflexivity.
  - rewrite !outcome_map_fst_bind. apply IH. exact Hrest.
  - rewrite Hal. destruct (i =? target); [reflexivity|].
    rewrite (att_width_layout a a' _ _ Ha).
    destruct (att_width a tup
                (IndexInfoFindDataOffset info + align_up (attalign a) off));
      simpl; try reflexivity.
    rewrite !outcome_map_fst_bind. apply IH. exact Hrest.
Qed.

Lemma attrs_at_nth_error tupleDesc i a :
  attrs_at tupleDesc i = Returns a ->
  nth_error (attrs tupleDesc) (Z.to_nat i) = Some a.
Proof.
  unfold attrs_at. destruct (i <? 0); [discriminate|].
  destruct (nth_error (attrs tupleDesc) (Z.to_nat i)); congruence.
Qed.

Lemma attrs_at_layout tupleDesc tupleDesc' i a a' :
  map att_layout (attrs tupleDesc') = map att_layout (attrs tupleDesc) ->
  attrs_at tupleDesc i = Returns a -> attrs_at tupleDesc' i = Returns a' ->
  att_layout a' = att_layout a.
Proof.
  intros Hm Ha Ha'.
  apply attrs_at_nth_error in Ha. apply attrs_at_nth_error in Ha'.
  apply (map_nth_error att_layout) in Ha.
  apply (map_nth_error att_layout) in Ha'.
  congruence.
Qed.

(** [nocache_walk] once [t_info] and the descriptor have been read. *)
Lemma nocache_walk_unfold tup attnum tupleDesc info a :
  t_info tup = Returns info -> attrs_at tupleDesc (attnum - 1) = Returns a ->
  (r <- nocache_walk tup attnum tupleDesc ;; Returns (Some (fst r), false, snd r)) =
  walk_and_fetch tup info tupleDesc attnum a.
Proof.
  intros Hi Ha. unfold nocache_walk, walk_and_fetch. rewrite Hi.
  cbn [bind]. rewrite null_mask_bit.
  destruct (walk_from tup info (has_nulls info) (attnum - 1) 0 0
              (attrs tupleDesc)) as [r| |]; cbn [bind]; try reflexivity.
  rewrite Ha. cbn [bind].
  destruct (fetch_value a tup (IndexInfoFindDataOffset info + fst r));
    reflexivity.
Qed.

(** [get_attribute] once the assertion holds and [t_info] and the
    descriptor have been read. *)
Lemma get_attribute_guarded tup tupleDesc attnum isnull info a :
  PointerIsValid isnull = true -> 0 < attnum ->
  t_info tup = Returns info -> attrs_at tupleDesc (attnum - 1) = Returns a ->
  get_attribute tup tupleDesc attnum isnull =
  if has_nulls info then
    b <- att_isnull (attnum - 1) tup sizeof_IndexTupleData ;;
    if b then Returns (None, true, attrs tupleDesc)
    else walk_and_fetch tup info tupleDesc attnum a
  else
    if 0 <=? attcacheoff a
    then direct_fetch tup info tupleDesc a
    else walk_and_fetch tup info tupleDesc attnum a.
Proof.
  intros Hp Hn Hi Ha. unfold get_attribute.
  rewrite (index_getattr_guarded tup attnum tupleDesc isnull info Hp Hn Hi).
  rewrite <- (nocache_walk_unfold tup attnum tupleDesc info a Hi Ha).
  destruct (has_nulls info).
  - destruct (att_isnull (attnum - 1) tup sizeof_IndexTupleData) as [[|]| |];
      simpl; try reflexivity.
    destruct (nocache_walk tup attnum tupleDesc); reflexivity.
  - rewrite Ha. simpl. destruct (0 <=? attcacheoff a); simpl.
    + unfold direct_fetch.
      destruct (fetch_value a tup (IndexInfoFindDataOffset info + attcacheoff a));
        reflexivity.
    + destruct (nocache_walk tup attnum tupleDesc); reflexivity.
Qed.

(** Value and flag of the walk do not depend on any cached offset. *)
Lemma walk_and_fetch_ignores_cache tup info tupleDesc tupleDesc' attnum a a' :
  map att_layout (attrs tupleDesc') = map att_layout (attrs tupleDesc) ->
  att_layout a' = att_layout a ->
  value_and_flag (walk_and_fetch tup info tupleDesc' attnum a') =
  value_and_flag (walk_and_fetch tup info tupleDesc attnum a).
Proof.
  intros Hm Ha. unfold walk_and_fetch, value_and_flag.
  pose proof (walk_from_ignores_cache tup info (has_nulls info) (attnum - 1)
                (attrs tupleDesc) (attrs tupleDesc') Hm 0 0) as Hw.
  destruct (walk_from tup info (has_nulls info) (attnum - 1) 0 0
              (attrs tupleDesc')) as [[off' ds']| |];
    destruct (walk_from tup info (has_nulls info) (attnum - 1) 0 0
                (attrs tupleDesc)) as [[off ds]| |];
    simpl in Hw; try discriminate; try reflexivity.
  injection Hw as ->. simpl.
  rewrite (fetch_value_layout a a' _ _ Ha).
  destruct (fetch_value a tup (IndexInfoFindDataOffset info + off)); reflexivity.
Qed.

End DecoderFacts.

(** C2: for a tuple and a 1-based attribute number that has a descriptor,
    [get_attribute] reads the value directly at the data offset plus the
    cached offset if and only if HAS_NULLS is clear and the cached offset
    is non-negative: then [index_getattr] yields the direct fetch and the
    value is the one read there.  In the other cases in which the
    attribute is not null (HAS_NULLS clear and no cached offset; HAS_NULLS
    set, whatever the cached offset) the value is the one the walk from
    attribute 1 and offset 0 arrives at, and no cached offset enters into
    it: descriptors that differ only in their cached offsets give the
    same value and flag. *)
Theorem get_attribute_direct_or_walk (P : Platform) (V : VarWidth)
    (tup : IndexTuple) (tupleDesc : TupleDesc) (attnum isnull info : Z)
    (a : Form_pg_attribute) :
  PointerIsValid isnull = true -> 0 < attnum ->
  t_info tup = Returns info ->
  attrs_at tupleDesc (attnum - 1) = Returns a ->
  (index_getattr tup attnum tupleDesc isnull =
     Returns (fetchatt a (IndexInfoFindDataOffset info + attcacheoff a), false)
   <-> has_nulls info = false /\ 0 <= attcacheoff a) /\
  (has_nulls info = false -> 0 <= attcacheoff a ->
   get_attribute tup tupleDesc attnum isnull = direct_fetch tup info tupleDesc a) /\
  (has_nulls info = false -> attcacheoff a < 0 ->
   get_attribute tup tupleDesc attnum isnull =
     walk_and_fetch tup info tupleDesc attnum a) /\
  (has_nulls info = true ->
   att_isnull (attnum - 1) tup sizeof_IndexTupleData = Returns false ->
   get_attribute tup tupleDesc attnum isnull =
     walk_and_fetch tup info tupleDesc attnum a) /\
  (forall (tupleDesc' : TupleDesc) (a' : Form_pg_attribute),
     map att_layout (attrs tupleDesc') = map att_layout (attrs tupleDesc) ->
     attrs_at tupleDesc' (attnum - 1) = Returns a' ->
     (has_nulls info = true /\
      att_isnull (attnum - 1) tup sizeof_IndexTupleData = Returns false) \/
     (has_nulls info = false /\ attcacheoff a < 0 /\ attcacheoff a' < 0) ->
     value_and_flag (get_attribute tup tupleDesc' attnum isnull) =
     value_and_flag (get_attribute tup tupleDesc attnum isnull)).
Proof.
  intros Hp Hn Hi Ha.
  pose proof (get_attribute_guarded tup tupleDesc attnum isnull info a
                Hp Hn Hi Ha) as Hg.
  split; [apply (index_getattr_dispatch P tup attnum tupleDesc isnull info a);
          assumption|].
  split; [|split; [|split]].
  - intros Hnulls Hoff. rewrite Hg, Hnulls.
    destruct (Z.leb_spec 0 (attcacheoff a)); [reflexivity | lia].
  - intros Hnulls Hoff. rewrite Hg, Hnulls.
    destruct (Z.leb_spec 0 (attcacheoff a)); [lia | reflexivity].
  - intros Hnulls Hb. rewrite Hg, Hnulls, Hb. reflexivity.
  - intros tupleDesc' a' Hm Ha' Hcase.
    pose proof (attrs_at_layout tupleDesc tupleDesc' (attnum - 1) a a' Hm Ha Ha')
      as Hl.
    rewrite Hg.
    rewrite (get_attribute_guarded tup tupleDesc' attnum isnull info a'
               Hp Hn Hi Ha').
    destruct Hcase as [[Hnulls Hb] | (Hnulls & Hoff & Hoff')];
      rewrite Hnulls.
    + rewrite Hb. simpl. now apply walk_and_fetch_ignores_cache.
    + destruct (Z.leb_spec 0 (attcacheoff a)); [lia|].
      destruct (Z.leb_spec 0 (attcacheoff a')); [lia|].
      now apply walk_and_fetch_ignores_cache.
Qed.

Lemma get_attribute_direct_or_walk_witness :
  @get_attribute pg_x86_64 one_byte_width example_plain_tuple example_desc 2 1 =
    Returns (Some [Byte.x07; Byte.x00; Byte.x00; Byte.x00], false,
             attrs example_desc) /\
  @get_attribute pg_x86_64 one_byte_width example_nulls_tuple
    example_desc3_badcache 2 1 =
    Returns (Some [Byte.x07; Byte.x00; Byte.x00; Byte.x00], false,
             attrs example_desc3_badcache) /\
  value_and_flag
    (@get_attribute pg_x86_64 one_byte_width example_nulls_tuple
       example_desc3_nocache 2 1) =
  value_and_flag
    (@get_attribute pg_x86_64 one_byte_width example_nulls_tuple
       example_desc3_badcache 2 1).
Proof.
  destruct (get_attribute_direct_or_walk pg_x86_64 one_byte_width
              example_plain_tuple example_desc 2 1 0x0010 (example_int4 4)
              eq_refl ltac:(lia) eq_refl eq_refl)
    as (_ & Hdirect & _).
  destruct (get_attribute_direct_or_walk pg_x86_64 one_byte_width
              example_nulls_tuple example_desc3_badcache 2 1 0x8018
              (example_int4 200) eq_refl ltac:(lia) eq_refl eq_refl)
    as (_ & _ & _ & Hwalk & Hcache).
  split; [|split].
  - rewrite (Hdirect eq_refl ltac:(simpl; lia)). reflexivity.
  - rewrite (Hwalk eq_refl eq_refl). reflexivity.
  - apply (Hcache example_desc3_nocache (example_int4 (-1)));
      [reflexivity | reflexivity | left; split; reflexivity].
Defined.
